(** * jpegtran: lossless JPEG transform element (src/plugins/gstjpegtran.c)

    A shallow embedding of the element's property accessors and of its chain
    function [gst_jpegtran_chain], together with the part of the GStreamer
    buffer API and of the TurboJPEG API the chain function calls.

    The element's own code is translated statement by statement.  The two
    libraries are not part of the repository: every result of theirs that
    depends on the environment (does a mapping succeed, does the allocator
    return memory, what does the codec answer, what does the downstream peer
    return) is a field of the record [Env]; the deterministic bookkeeping of
    the buffer API (reference counts, open mappings, timestamps, memory
    sizes) is modelled on a store of buffers. *)

From stdpp Require Import base option list gmap strings.
From Stdlib Require Import ZArith Lia.

Local Open Scope Z_scope.

(** ** C integer types *)

(** [gsize] and [unsigned long] on the LP64 targets GStreamer builds for. *)
Definition G_MAXSIZE : Z := 2 ^ 64 - 1.
Definition to_gsize (z : Z) : Z := z `mod` 2 ^ 64.

(** [int]: 32 bits, two's complement. *)
Definition to_int (z : Z) : Z := (z + 2 ^ 31) `mod` 2 ^ 32 - 2 ^ 31.

(** ** TurboJPEG constants and types (turbojpeg.h) *)

Inductive TJXOP : Set :=
| TJXOP_NONE | TJXOP_HFLIP | TJXOP_VFLIP | TJXOP_TRANSPOSE
| TJXOP_TRANSVERSE | TJXOP_ROT90 | TJXOP_ROT180 | TJXOP_ROT270.

(** The enumerators are numbered from 0 in declaration order. *)
Definition xop_value (op : TJXOP) : Z :=
  match op with
  | TJXOP_NONE => 0 | TJXOP_HFLIP => 1 | TJXOP_VFLIP => 2
  | TJXOP_TRANSPOSE => 3 | TJXOP_TRANSVERSE => 4 | TJXOP_ROT90 => 5
  | TJXOP_ROT180 => 6 | TJXOP_ROT270 => 7
  end.

Definition all_xops : list TJXOP :=
  [TJXOP_NONE; TJXOP_HFLIP; TJXOP_VFLIP; TJXOP_TRANSPOSE;
   TJXOP_TRANSVERSE; TJXOP_ROT90; TJXOP_ROT180; TJXOP_ROT270].

Definition TJXOPT_TRIM : Z := 2.
Definition TJFLAG_NOREALLOC : Z := 1024.

(** [tjtransform]: the chain function zeroes the structure and then sets
    [op] and [options]; the cropping region, [data] and [customFilter]
    stay zero and are left out. *)
Record tjtransform : Set := { op : Z; options : Z }.

Definition tjhandle : Set := nat.

(** ** GStreamer constants and types *)

Inductive GstFlowReturn : Set :=
| GST_FLOW_OK | GST_FLOW_NOT_LINKED | GST_FLOW_FLUSHING | GST_FLOW_EOS
| GST_FLOW_NOT_NEGOTIATED | GST_FLOW_ERROR | GST_FLOW_NOT_SUPPORTED.

Definition GST_MAP_READ : Z := 1.
Definition GST_MAP_WRITE : Z := 2.

Definition GST_BUFFER_COPY_FLAGS : Z := 1.
Definition GST_BUFFER_COPY_TIMESTAMPS : Z := 2.
Definition GST_BUFFER_COPY_META : Z := 4.
Definition GST_BUFFER_COPY_MEMORY : Z := 8.

(** [GST_CLOCK_TIME_NONE] and [GST_BUFFER_OFFSET_NONE] are both
    [(guint64) -1]. *)
Definition GST_CLOCK_TIME_NONE : Z := 2 ^ 64 - 1.
Definition GST_BUFFER_OFFSET_NONE : Z := 2 ^ 64 - 1.

(** A block of memory: where its bytes live and how many there are. *)
Record GstMemory : Set := { mem_addr : Z; mem_size : Z }.

(** A buffer as the chain function can observe it. *)
Record GstBuffer : Set := {
  refcount : nat;
  mapcount : nat;            (* mappings opened and not yet closed *)
  buf_flags : Z;
  pts : Z;
  dts : Z;
  duration : Z;
  offset : Z;
  offset_end : Z;
  memory : list GstMemory
}.

Record GstMapInfo : Set := { info_data : Z; info_size : Z }.

Definition GstBufferP : Set := nat.     (* GstBuffer *, by identity *)
Definition GstPad : Set := nat.

(** gst_buffer_get_size *)
Fixpoint gst_buffer_get_size_mem (ms : list GstMemory) : Z :=
  match ms with
  | [] => 0
  | m :: ms' => mem_size m + gst_buffer_get_size_mem ms'
  end.

Definition gst_buffer_get_size (b : GstBuffer) : Z :=
  gst_buffer_get_size_mem (memory b).

(** What a mapping of the whole buffer shows: the start of its bytes (NULL
    for a buffer without memory) and their number. *)
Definition map_info_of (b : GstBuffer) : GstMapInfo :=
  {| info_data := match memory b with [] => 0 | m :: _ => mem_addr m end;
     info_size := gst_buffer_get_size b |}.

(** ** The element instance (struct _Gstjpegtran, gstjpegtran.h) *)

(** Modelled from the spec: the header gstjpegtran.h is not among the
    sources; the fields are those gstjpegtran.c reads and writes, the
    transform operation being the enumerated property of section 6. *)
Record Gstjpegtran : Set := {
  sinkpad : GstPad;
  srcpad : GstPad;
  xop : Z;
  tjHandle : tjhandle;
  tjInstance : tjhandle
}.

(** ** What the chain function does to its surroundings *)

Inductive Event : Set :=
| EvMap (b : GstBufferP) (flags : Z) (ok : bool)
| EvUnmap (b : GstBufferP)
| EvNew (b : GstBufferP)
| EvUnref (b : GstBufferP)
| EvElementError (text : string)
| EvDecompressHeader (h : tjhandle) (jpegBuf jpegSize : Z) (ret : Z)
| EvAlloc (sz : Z) (mem : option GstMemory)
| EvTransform (h : tjhandle) (jpegBuf jpegSize n dstBuf dstSize : Z)
    (t : tjtransform) (flags : Z) (ret dstSize' : Z)
| EvCopyRegion (src : GstBufferP) (flags off sz : Z) (res : option GstBufferP)
| EvPush (pad : GstPad) (b : GstBufferP) (sent : GstBuffer) (ret : GstFlowReturn).

Record World : Type := {
  bufs : gmap GstBufferP GstBuffer;   (* the live buffers *)
  trace : list Event                   (* oldest event first *)
}.

(** ** The environment: answers of the libraries and of the peers *)

Record HeaderResult : Set := {
  hdr_ret : Z; hdr_width : Z; hdr_height : Z; hdr_subsamp : Z
}.

Record Env : Type := {
  (** does gst_buffer_map of this buffer with these flags succeed *)
  env_map_ok : GstBufferP → Z → bool;
  (** tjDecompressHeader3: return value and the values of width, height and
      jpegSubsamp after the call (they are 0 before it) *)
  env_header : tjhandle → Z → Z → HeaderResult;
  (** tjBufSize *)
  env_bufsize : Z → Z → Z → Z;
  (** gst_allocator_alloc: address of the block, or NULL *)
  env_alloc : Z → option Z;
  (** tjTransform with one output: return value and dstSizes[0] after the
      call, given handle, input, dstBufs[0], dstSizes[0], transform, flags *)
  env_transform : tjhandle → Z → Z → Z → Z → tjtransform → Z → Z * Z;
  (** gst_pad_push: what the downstream peer returns for this buffer *)
  env_push : GstPad → GstBuffer → GstFlowReturn;
  (** tjInitDecompress, tjInitTransform: the new handle, 0 for NULL *)
  env_init_decompress : tjhandle;
  env_init_transform : tjhandle
}.

(** ** A state monad over the world *)

Definition M (A : Type) : Type := World → A * World.

#[local] Instance M_ret : MRet M := λ A a w, (a, w).
#[local] Instance M_bind : MBind M :=
  λ A B f m w, let '(a, w') := m w in f a w'.

Definition emit (e : Event) : M unit :=
  λ w, (tt, {| bufs := bufs w; trace := trace w ++ [e] |}).

Definition with_bufs (f : gmap GstBufferP GstBuffer → gmap GstBufferP GstBuffer) : M unit :=
  λ w, (tt, {| bufs := f (bufs w); trace := trace w |}).

Definition lookup_buf (b : GstBufferP) : M (option GstBuffer) :=
  λ w, (bufs w !! b, w).

(** A new buffer gets an address no live buffer has. *)
Definition store_new (buf : GstBuffer) : M GstBufferP :=
  λ w, let b := fresh (dom (bufs w)) in
       (b, {| bufs := <[b := buf]> (bufs w); trace := trace w |}).

(** ** The buffer API, as far as the element uses it *)

Definition set_mapcount (n : nat) (b : GstBuffer) : GstBuffer :=
  {| refcount := refcount b; mapcount := n; buf_flags := buf_flags b;
     pts := pts b; dts := dts b; duration := duration b;
     offset := offset b; offset_end := offset_end b; memory := memory b |}.

Definition set_refcount (n : nat) (b : GstBuffer) : GstBuffer :=
  {| refcount := n; mapcount := mapcount b; buf_flags := buf_flags b;
     pts := pts b; dts := dts b; duration := duration b;
     offset := offset b; offset_end := offset_end b; memory := memory b |}.

Definition set_memory (ms : list GstMemory) (b : GstBuffer) : GstBuffer :=
  {| refcount := refcount b; mapcount := mapcount b; buf_flags := buf_flags b;
     pts := pts b; dts := dts b; duration := duration b;
     offset := offset b; offset_end := offset_end b; memory := ms |}.

(** What gst_buffer_new returns: one reference, no memory, no timestamps. *)
Definition new_buffer : GstBuffer :=
  {| refcount := 1; mapcount := 0; buf_flags := 0;
     pts := GST_CLOCK_TIME_NONE; dts := GST_CLOCK_TIME_NONE;
     duration := GST_CLOCK_TIME_NONE;
     offset := GST_BUFFER_OFFSET_NONE; offset_end := GST_BUFFER_OFFSET_NONE;
     memory := [] |}.

(** Giving up one reference: the buffer is freed with its last one. *)
Definition drop_ref (b : GstBufferP) (h : gmap GstBufferP GstBuffer) : gmap GstBufferP GstBuffer :=
  match h !! b with
  | Some buf =>
      if (refcount buf <=? 1)%nat then delete b h
      else <[b := set_refcount (Nat.pred (refcount buf)) buf]> h
  | None => h
  end.

(** The part of a buffer's memory that a region copy shares: [skip] bytes
    are passed over, then [left] bytes are taken. *)
Fixpoint copy_memory (ms : list GstMemory) (skip left : Z) : list GstMemory :=
  match ms with
  | [] => []
  | m :: ms' =>
      if left <=? 0 then []
      else if mem_size m <=? skip then copy_memory ms' (skip - mem_size m) left
      else
        let tocopy := Z.min (mem_size m - skip) left in
        {| mem_addr := mem_addr m + skip; mem_size := tocopy |}
          :: copy_memory ms' 0 (left - tocopy)
  end.

Definition has_flag (flags f : Z) : bool := negb (Z.land flags f =? 0).

(** gst_buffer_copy_into on a new destination: [None] when the region does
    not lie inside the source.  A size of [(gsize) -1] stands for "up to the
    end".  GstMeta items are not modelled. *)
Definition gst_buffer_copy_into (src : GstBuffer) (flags off sz : Z) : option GstBuffer :=
  let bufsize := gst_buffer_get_size src in
  if bufsize <? off then None
  else
    let sz := if sz =? G_MAXSIZE then bufsize - off else sz in
    if bufsize <? off + sz then None
    else
      let ts := has_flag flags GST_BUFFER_COPY_TIMESTAMPS in
      let whole := sz =? bufsize in
      Some
        {| refcount := 1; mapcount := 0;
           buf_flags := if has_flag flags GST_BUFFER_COPY_FLAGS
                        then buf_flags src else buf_flags new_buffer;
           pts := if ts && (off =? 0) then pts src else pts new_buffer;
           dts := if ts && (off =? 0) then dts src else dts new_buffer;
           duration := if ts && (off =? 0) && whole
                       then duration src else duration new_buffer;
           offset := if ts && (off =? 0) then offset src else offset new_buffer;
           offset_end := if ts && (off =? 0) && whole
                         then offset_end src else offset_end new_buffer;
           memory := if has_flag flags GST_BUFFER_COPY_MEMORY
                     then copy_memory (memory src) off sz else [] |}.

Section Api.
Variable env : Env.

Definition GST_ELEMENT_ERROR (text : string) : M unit :=
  emit (EvElementError text).

(** gst_buffer_map of the whole buffer. *)
Definition gst_buffer_map (b : GstBufferP) (flags : Z) : M (option GstMapInfo) :=
  ob ← lookup_buf b;
  match ob with
  | None => mret None
  | Some buf =>
      if env_map_ok env b flags then
        with_bufs <[b := set_mapcount (S (mapcount buf)) buf]>;;
        emit (EvMap b flags true);;
        mret (Some (map_info_of buf))
      else
        emit (EvMap b flags false);;
        mret None
  end.

Definition gst_buffer_unmap (b : GstBufferP) : M unit :=
  with_bufs (alter (λ buf, set_mapcount (Nat.pred (mapcount buf)) buf) b);;
  emit (EvUnmap b).

Definition gst_buffer_new : M GstBufferP :=
  b ← store_new new_buffer;
  emit (EvNew b);;
  mret b.

Definition gst_buffer_unref (b : GstBufferP) : M unit :=
  with_bufs (drop_ref b);;
  emit (EvUnref b).

(** gst_allocator_alloc (NULL, size, NULL) *)
Definition gst_allocator_alloc (sz : Z) : M (option GstMemory) :=
  let mem := (λ a, {| mem_addr := a; mem_size := sz |}) <$> env_alloc env sz in
  emit (EvAlloc sz mem);;
  mret mem.

(** gst_buffer_append_memory returns at once when handed NULL. *)
Definition gst_buffer_append_memory (b : GstBufferP) (mem : option GstMemory) : M unit :=
  match mem with
  | None => mret tt
  | Some m => with_bufs (alter (λ buf, set_memory (memory buf ++ [m]) buf) b)
  end.

(** gst_buffer_copy_region: a new buffer, or NULL. *)
Definition gst_buffer_copy_region (src : GstBufferP) (flags off sz : Z) : M (option GstBufferP) :=
  ob ← lookup_buf src;
  match ob ≫= (λ buf, gst_buffer_copy_into buf flags off sz) with
  | None => emit (EvCopyRegion src flags off sz None);; mret None
  | Some copy =>
      b ← store_new copy;
      emit (EvCopyRegion src flags off sz (Some b));;
      mret (Some b)
  end.

(** gst_pad_push takes the caller's reference; handed NULL it returns
    GST_FLOW_ERROR without reaching the peer. *)
Definition gst_pad_push (pad : GstPad) (ob : option GstBufferP) : M GstFlowReturn :=
  match ob with
  | None => mret GST_FLOW_ERROR
  | Some b =>
      obuf ← lookup_buf b;
      match obuf with
      | None => mret GST_FLOW_ERROR
      | Some buf =>
          let r := env_push env pad buf in
          emit (EvPush pad b buf r);;
          with_bufs (drop_ref b);;
          mret r
      end
  end.

(** ** The codec API *)

Definition tjDecompressHeader3 (h : tjhandle) (jpegBuf jpegSize : Z) : M HeaderResult :=
  let r := env_header env h jpegBuf jpegSize in
  let r := {| hdr_ret := to_int (hdr_ret r); hdr_width := to_int (hdr_width r);
              hdr_height := to_int (hdr_height r);
              hdr_subsamp := to_int (hdr_subsamp r) |} in
  emit (EvDecompressHeader h jpegBuf jpegSize (hdr_ret r));;
  mret r.

Definition tjBufSize (width height jpegSubsamp : Z) : Z :=
  to_gsize (env_bufsize env width height jpegSubsamp).

Definition tjTransform (h : tjhandle) (jpegBuf jpegSize n dstBuf dstSize : Z)
    (t : tjtransform) (flags : Z) : M (Z * Z) :=
  let r := env_transform env h jpegBuf jpegSize dstBuf dstSize t flags in
  let r := (to_int r.1, to_gsize r.2) in
  emit (EvTransform h jpegBuf jpegSize n dstBuf dstSize t flags r.1 r.2);;
  mret r.
End Api.

(** ** The element: properties *)

Definition PROP_0 : Z := 0.
Definition PROP_XOP : Z := 1.

Definition DEFAULT_XOP : Z := xop_value TJXOP_NONE.

(** The table registered as enumeration type GstJpegTranXop: value and nick
    of each entry (the descriptions are left out). *)
Definition xop_types : list (Z * string) :=
  [(xop_value TJXOP_NONE, "none"); (xop_value TJXOP_HFLIP, "hflip");
   (xop_value TJXOP_VFLIP, "vflip"); (xop_value TJXOP_TRANSPOSE, "transpose");
   (xop_value TJXOP_TRANSVERSE, "transverse"); (xop_value TJXOP_ROT90, "rot90");
   (xop_value TJXOP_ROT180, "rot180"); (xop_value TJXOP_ROT270, "rot270")].

(** A GValue holding an enumeration value. *)
Definition GValue : Set := Z.
Definition g_value_get_enum (value : GValue) : Z := value.
Definition g_value_set_enum (value : GValue) (v : Z) : GValue := v.

Definition set_xop (v : Z) (filter : Gstjpegtran) : Gstjpegtran :=
  {| sinkpad := sinkpad filter; srcpad := srcpad filter; xop := v;
     tjHandle := tjHandle filter; tjInstance := tjInstance filter |}.

(** In the default branch G_OBJECT_WARN_INVALID_PROPERTY_ID prints a warning
    and the instance is left as it was. *)
Definition gst_jpegtran_set_property (filter : Gstjpegtran) (prop_id : Z)
    (value : GValue) : Gstjpegtran :=
  if prop_id =? PROP_XOP then set_xop (g_value_get_enum value) filter
  else filter.

Definition gst_jpegtran_get_property (filter : Gstjpegtran) (prop_id : Z)
    (value : GValue) : GValue :=
  if prop_id =? PROP_XOP then g_value_set_enum value (xop filter)
  else value.

(** The flags handed to gst_buffer_copy_region. *)
Definition trim_copy_flags : Z :=
  Z.lor (Z.lor (Z.lor GST_BUFFER_COPY_FLAGS GST_BUFFER_COPY_TIMESTAMPS)
           GST_BUFFER_COPY_META) GST_BUFFER_COPY_MEMORY.

Section Element.
Variable env : Env.

(** gst_jpegtran_init; the two pads come from the static templates. *)
Definition gst_jpegtran_init (sink src : GstPad) : M Gstjpegtran :=
  let h := env_init_decompress env in
  (if (h =? 0)%nat
   then GST_ELEMENT_ERROR "cannot init decompressor" else mret tt);;
  let i := env_init_transform env in
  (if (i =? 0)%nat
   then GST_ELEMENT_ERROR "cannot init transform" else mret tt);;
  mret {| sinkpad := sink; srcpad := src; xop := DEFAULT_XOP;
          tjHandle := h; tjInstance := i |}.

(** gst_jpegtran_chain.  The two GST_LOG_OBJECT statements only format a
    debug line and are left out, and so is the codec's own message that the
    source appends to "cannot decompress header". *)
Definition gst_jpegtran_chain (self : Gstjpegtran) (inbuf : GstBufferP) : M GstFlowReturn :=
  in_map ← gst_buffer_map env inbuf GST_MAP_READ;
  match in_map with
  | None =>
      GST_ELEMENT_ERROR "Unable to map memory";;
      gst_buffer_unref inbuf;;
      mret GST_FLOW_ERROR
  | Some in_info =>
      hdr ← tjDecompressHeader3 env (tjHandle self)
              (info_data in_info) (info_size in_info);
      (if hdr_ret hdr =? 0 then mret tt
       else GST_ELEMENT_ERROR "cannot decompress header");;
      let width := hdr_width hdr in
      let height := hdr_height hdr in
      let jpegSubsamp := hdr_subsamp hdr in
      let xform := {| op := xop self; options := Z.lor 0 TJXOPT_TRIM |} in
      let flags := TJFLAG_NOREALLOC in
      outbuf ← gst_buffer_new;
      mem ← gst_allocator_alloc env (tjBufSize env width height jpegSubsamp);
      gst_buffer_append_memory outbuf mem;;
      out_map ← gst_buffer_map env outbuf GST_MAP_WRITE;
      match out_map with
      | None =>
          GST_ELEMENT_ERROR "Unable to map memory";;
          gst_buffer_unref outbuf;;
          mret GST_FLOW_ERROR
      | Some out_info =>
          r ← tjTransform env (tjInstance self)
                (info_data in_info) (info_size in_info) 1
                (info_data out_info) (info_size out_info) xform flags;
          let dstSizes0 := r.2 in
          (if r.1 <? 0 then GST_ELEMENT_ERROR "tjTransform failed"
           else mret tt);;
          gst_buffer_unmap inbuf;;
          gst_buffer_unmap outbuf;;
          trimmedbuf ← gst_buffer_copy_region outbuf trim_copy_flags 0 dstSizes0;
          ret ← gst_pad_push env (srcpad self) trimmedbuf;
          gst_buffer_unref inbuf;;
          gst_buffer_unref outbuf;;
          mret ret
      end
  end.

(** One invocation on a store of live buffers, with an empty trace. *)
Definition run_chain (self : Gstjpegtran) (inbuf : GstBufferP)
    (h : gmap GstBufferP GstBuffer) : GstFlowReturn * World :=
  gst_jpegtran_chain self inbuf {| bufs := h; trace := [] |}.
End Element.

(** ** A simulated environment for concrete runs *)

Module Sim.
(** tjBufSize of libjpeg-turbo: MCU sizes per subsampling mode
    (4:4:4, 4:2:2, 4:2:0, gray, 4:4:0, 4:1:1), dimensions padded to whole
    MCUs, and [(unsigned long) -1] for arguments out of range. *)
Definition tjMCUWidth : list Z := [8; 16; 16; 8; 8; 32].
Definition tjMCUHeight : list Z := [8; 8; 16; 8; 16; 8].
Definition TJSAMP_420 : Z := 2.
Definition TJSAMP_GRAY : Z := 3.
Definition PAD (v p : Z) : Z := Z.land (v + p - 1) (Z.lnot (p - 1)).

Definition bufsize (width height jpegSubsamp : Z) : Z :=
  if (width <? 1) || (height <? 1) || (jpegSubsamp <? 0) || (6 <=? jpegSubsamp)
  then -1
  else
    let mcuw := default 8 (tjMCUWidth !! Z.to_nat jpegSubsamp) in
    let mcuh := default 8 (tjMCUHeight !! Z.to_nat jpegSubsamp) in
    let chromasf := if jpegSubsamp =? TJSAMP_GRAY then 0
                    else 4 * 64 / (mcuw * mcuh) in
    PAD width mcuw * PAD height mcuh * (2 + chromasf) + 2048.

(** A codec whose header probe rejects inputs shorter than four bytes and
    reads every other input as a 640x480 4:2:0 image, and whose transform
    fails on inputs shorter than 100 bytes or larger than the output
    region (leaving dstSizes[0] as it was) and otherwise writes as many
    bytes as it read; an allocator that serves requests up to [limit];
    write mappings that succeed when [write_ok]; a peer that answers
    [answer]. *)
Definition env (limit : Z) (write_ok : bool) (answer : GstFlowReturn) : Env :=
  {| env_map_ok := λ _ flags, if flags =? GST_MAP_WRITE then write_ok else true;
     env_header := λ _ _ jpegSize,
       if jpegSize <? 4
       then {| hdr_ret := -1; hdr_width := 0; hdr_height := 0; hdr_subsamp := 0 |}
       else {| hdr_ret := 0; hdr_width := 640; hdr_height := 480;
               hdr_subsamp := TJSAMP_420 |};
     env_bufsize := bufsize;
     env_alloc := λ sz, if sz <=? limit then Some 4096 else None;
     env_transform := λ _ _ jpegSize _ dstSize _ _,
       if (jpegSize <? 100) || (dstSize <? jpegSize) then (-1, dstSize)
       else (0, jpegSize);
     env_push := λ _ _, answer;
     env_init_decompress := 1%nat;
     env_init_transform := 2%nat |}.

Definition filter (v : Z) : Gstjpegtran :=
  {| sinkpad := 10%nat; srcpad := 11%nat; xop := v;
     tjHandle := 1%nat; tjInstance := 2%nat |}.

(** An input buffer of [n] bytes stamped with [t], held by one reference. *)
Definition input (n t : Z) : GstBuffer :=
  {| refcount := 1; mapcount := 0; buf_flags := 0;
     pts := t; dts := t; duration := 40; offset := 7; offset_end := 8;
     memory := [{| mem_addr := 256; mem_size := n |}] |}.

Definition store (n t : Z) : gmap GstBufferP GstBuffer := {[ 5%nat := input n t ]}.
End Sim.

(** ** The values of the chain function's local variables

    Each is the value the variable of that name holds in an invocation on
    input buffer [b], as a function of the environment. *)

Section Locals.
Variables (env : Env) (self : Gstjpegtran) (b : GstBuffer).

Definition in_info : GstMapInfo := map_info_of b.

(** return value of tjDecompressHeader3, and width, height, jpegSubsamp *)
Definition hdr : HeaderResult :=
  let r := env_header env (tjHandle self) (info_data in_info) (info_size in_info) in
  {| hdr_ret := to_int (hdr_ret r); hdr_width := to_int (hdr_width r);
     hdr_height := to_int (hdr_height r); hdr_subsamp := to_int (hdr_subsamp r) |}.

(** the size asked of the allocator *)
Definition capacity : Z :=
  tjBufSize env (hdr_width hdr) (hdr_height hdr) (hdr_subsamp hdr).

Definition mem : option GstMemory :=
  (λ a, {| mem_addr := a; mem_size := capacity |}) <$> env_alloc env capacity.

(** the output buffer once the memory has been appended *)
Definition out_buffer : GstBuffer :=
  match mem with
  | Some m => set_memory [m] new_buffer
  | None => new_buffer
  end.

Definition out_info : GstMapInfo := map_info_of out_buffer.

Definition xform : tjtransform := {| op := xop self; options := Z.lor 0 TJXOPT_TRIM |}.

(** return value of tjTransform and dstSizes[0] after the call *)
Definition transformed : Z * Z :=
  let r := env_transform env (tjInstance self) (info_data in_info) (info_size in_info)
             (info_data out_info) (info_size out_info) xform TJFLAG_NOREALLOC in
  (to_int r.1, to_gsize r.2).

Definition dstSizes0 : Z := transformed.2.

(** the buffer gst_buffer_copy_region makes, if any *)
Definition trimmed : option GstBuffer :=
  gst_buffer_copy_into out_buffer trim_copy_flags 0 dstSizes0.
End Locals.

(** ** Reading a trace *)

Definition pushed (tr : list Event) : list GstBuffer :=
  omap (λ e, match e with EvPush _ _ sent _ => Some sent | _ => None end) tr.

Definition posted (tr : list Event) : list string :=
  omap (λ e, match e with EvElementError text => Some text | _ => None end) tr.

Definition alloc_requests (tr : list Event) : list Z :=
  omap (λ e, match e with EvAlloc sz _ => Some sz | _ => None end) tr.

(** The calls of tjTransform: transform, flags, dstSizes[0] before and after. *)
Definition transform_calls (tr : list Event) : list (tjtransform * Z * Z * Z) :=
  omap (λ e, match e with
             | EvTransform _ _ _ _ _ dstSize t flags _ dstSize' =>
                 Some (t, flags, dstSize, dstSize')
             | _ => None
             end) tr.

Definition unrefs (b : GstBufferP) (tr : list Event) : nat :=
  length (omap (λ e, match e with
                     | EvUnref b' => if decide (b' = b) then Some tt else None
                     | _ => None
                     end) tr).

(** The buffers with a mapping still open after the events of [tr]. *)
Fixpoint remove_first (b : GstBufferP) (l : list GstBufferP) : list GstBufferP :=
  match l with
  | [] => []
  | x :: l' => if decide (x = b) then l' else x :: remove_first b l'
  end.

Definition still_mapped (tr : list Event) : list GstBufferP :=
  foldl (λ open e, match e with
                   | EvMap b _ true => b :: open
                   | EvUnmap b => remove_first b open
                   | _ => open
                   end) [] tr.

(** ** The traces of the ways through the chain function *)

(** Where gst_buffer_new puts the output buffer when the live buffers are
    those of [h]. *)
Definition outbuf_of (h : gmap GstBufferP GstBuffer) : GstBufferP := fresh (dom h).

Section Traces.
Variables (env : Env) (self : Gstjpegtran) (inbuf : GstBufferP).
Variables (h : gmap GstBufferP GstBuffer) (b : GstBuffer).

(** The events up to the attempt to map the output buffer. *)
Definition trace_to_output_map (ok : bool) : list Event :=
  [EvMap inbuf GST_MAP_READ true;
   EvDecompressHeader (tjHandle self) (info_data (in_info b))
     (info_size (in_info b)) (hdr_ret (hdr env self b))]
  ++ (if hdr_ret (hdr env self b) =? 0 then []
      else [EvElementError "cannot decompress header"])
  ++ [EvNew (outbuf_of h);
      EvAlloc (capacity env self b) (mem env self b);
      EvMap (outbuf_of h) GST_MAP_WRITE ok].

(** Where gst_buffer_copy_region puts the trimmed buffer. *)
Definition trimmedbuf : GstBufferP := outbuf_of (<[outbuf_of h := out_buffer env self b]> h).

(** The events from the transform to the two closed mappings. *)
Definition trace_transform : list Event :=
  [EvTransform (tjInstance self) (info_data (in_info b)) (info_size (in_info b)) 1
     (info_data (out_info env self b)) (info_size (out_info env self b))
     (xform self) TJFLAG_NOREALLOC (transformed env self b).1 (dstSizes0 env self b)]
  ++ (if (transformed env self b).1 <? 0
      then [EvElementError "tjTransform failed"] else [])
  ++ [EvUnmap inbuf; EvUnmap (outbuf_of h)].

(** The events from the trim to the end. *)
Definition trace_forward : list Event :=
  match trimmed env self b with
  | Some t =>
      [EvCopyRegion (outbuf_of h) trim_copy_flags 0 (dstSizes0 env self b) (Some trimmedbuf);
       EvPush (srcpad self) trimmedbuf t (env_push env (srcpad self) t)]
  | None =>
      [EvCopyRegion (outbuf_of h) trim_copy_flags 0 (dstSizes0 env self b) None]
  end
  ++ [EvUnref inbuf; EvUnref (outbuf_of h)].

(** What gst_pad_push returns. *)
Definition push_result : GstFlowReturn :=
  match trimmed env self b with
  | Some t => env_push env (srcpad self) t
  | None => GST_FLOW_ERROR
  end.
End Traces.

(** The codec keeps to the output region: dstSizes[0] after tjTransform is
    no more than the size of the mapped output buffer. *)
Definition within_region (env : Env) (self : Gstjpegtran) (b : GstBuffer) : Prop :=
  dstSizes0 env self b ≤ info_size (out_info env self b).

(** The flags and the output region size of each tjTransform call. *)
Definition transform_regions (tr : list Event) : list (Z * Z) :=
  (λ c, (c.1.1.2, c.1.2)) <$> transform_calls tr.

(** The operation of each tjTransform call. *)
Definition transform_ops (tr : list Event) : list Z :=
  (λ c, op c.1.1.1) <$> transform_calls tr.





(** ** Concrete inputs *)

Module Inputs.
(** The allocator serves up to 1 GiB, write mappings succeed, the peer
    accepts. *)
Definition env : Env := Sim.env (2 ^ 30) true GST_FLOW_OK.

(** The same, but the output buffer cannot be mapped. *)
Definition env_nomap : Env := Sim.env (2 ^ 30) false GST_FLOW_OK.

(** The same as [env], but the allocator has nothing left to give. *)
Definition env_exhausted : Env := Sim.env (-1) true GST_FLOW_OK.

Definition rot90 : Gstjpegtran := Sim.filter (xop_value TJXOP_ROT90).
Definition none : Gstjpegtran := Sim.filter (xop_value TJXOP_NONE).

Definition inbuf : GstBufferP := 5%nat.

(** A 3000-byte image stamped 90000. *)
Definition image : GstBuffer := Sim.input 3000 90000.
Definition image_store : gmap GstBufferP GstBuffer := Sim.store 3000 90000.

(** A buffer cut off after two bytes: the header probe fails, tjBufSize
    answers (unsigned long) -1 for the dimensions 0x0, and the allocator
    cannot serve that. *)
Definition stub : GstBuffer := Sim.input 2 90000.
Definition stub_store : gmap GstBufferP GstBuffer := Sim.store 2 90000.

(** A buffer cut off after 50 bytes: the header is read, the transform
    fails. *)
Definition torso : GstBuffer := Sim.input 50 90000.
Definition torso_store : gmap GstBufferP GstBuffer := Sim.store 50 90000.

(** The trace of rotating [image]: what comes before the push, the buffer
    pushed, and what comes after. *)
Definition image_pre : list Event :=
  [EvMap 5%nat GST_MAP_READ true;
   EvDecompressHeader 1%nat 256 3000 0;
   EvNew 6%nat;
   EvAlloc 923648 (Some {| mem_addr := 4096; mem_size := 923648 |});
   EvMap 6%nat GST_MAP_WRITE true;
   EvTransform 2%nat 256 3000 1 4096 923648
     {| op := xop_value TJXOP_ROT90; options := TJXOPT_TRIM |}
     TJFLAG_NOREALLOC 0 3000;
   EvUnmap 5%nat; EvUnmap 6%nat;
   EvCopyRegion 6%nat trim_copy_flags 0 3000 (Some 7%nat)].

Definition image_trimmed : GstBuffer :=
  {| refcount := 1; mapcount := 0; buf_flags := 0;
     pts := GST_CLOCK_TIME_NONE; dts := GST_CLOCK_TIME_NONE;
     duration := GST_CLOCK_TIME_NONE;
     offset := GST_BUFFER_OFFSET_NONE; offset_end := GST_BUFFER_OFFSET_NONE;
     memory := [{| mem_addr := 4096; mem_size := 3000 |}] |}.

Definition image_post : list Event := [EvUnref 5%nat; EvUnref 6%nat].
End Inputs.

Module Stream.
(** Two images waiting in the store, the second one held by a second
    reference as well. *)
Definition first : GstBuffer := Sim.input 3000 90000.
Definition second : GstBuffer :=
  {| refcount := 2; mapcount := 0; buf_flags := 0;
     pts := 93600; dts := 93600; duration := 40; offset := 8; offset_end := 9;
     memory := [{| mem_addr := 512; mem_size := 2500 |}] |}.
Definition store : gmap GstBufferP GstBuffer := {[ 5%nat := first; 6%nat := second ]}.

(** A codec that reports more bytes than the output region holds. *)
Definition env_overrun : Env :=
  {| env_map_ok := λ _ _, true;
     env_header := env_header Inputs.env;
     env_bufsize := env_bufsize Inputs.env;
     env_alloc := env_alloc Inputs.env;
     env_transform := λ _ _ _ _ dstSize _ _, (-1, dstSize + 1);
     env_push := env_push Inputs.env;
     env_init_decompress := 0%nat;
     env_init_transform := 2%nat |}.


(** A codec that reports (unsigned long) -1. *)
Definition env_minus_one : Env :=
  {| env_map_ok := λ _ _, true;
     env_header := env_header Inputs.env;
     env_bufsize := env_bufsize Inputs.env;
     env_alloc := env_alloc Inputs.env;
     env_transform := λ _ _ _ _ _ _ _, (-1, -1);
     env_push := env_push Inputs.env;
     env_init_decompress := 1%nat;
     env_init_transform := 2%nat |}.

(** tjInitDecompress returns NULL; everything else works. *)
Definition env_nohandle : Env :=
  {| env_map_ok := env_map_ok Inputs.env;
     env_header := env_header Inputs.env;
     env_bufsize := env_bufsize Inputs.env;
     env_alloc := env_alloc Inputs.env;
     env_transform := env_transform Inputs.env;
     env_push := env_push Inputs.env;
     env_init_decompress := 0%nat;
     env_init_transform := 2%nat |}.

(** No buffer can be mapped. *)
Definition env_nomap : Env :=
  {| env_map_ok := λ _ _, false;
     env_header := env_header Inputs.env;
     env_bufsize := env_bufsize Inputs.env;
     env_alloc := env_alloc Inputs.env;
     env_transform := env_transform Inputs.env;
     env_push := env_push Inputs.env;
     env_init_decompress := 1%nat;
     env_init_transform := 0%nat |}.
End Stream.

(** ** Further readings of a trace *)

(** The calls of tjDecompressHeader3: handle, jpegBuf, jpegSize. *)
Definition header_calls (tr : list Event) : list (tjhandle * Z * Z) :=
  omap (λ e, match e with
             | EvDecompressHeader hd jpegBuf jpegSize _ => Some (hd, jpegBuf, jpegSize)
             | _ => None
             end) tr.

(** The calls of tjTransform: handle, jpegBuf, jpegSize, n, dstBufs[0]. *)
Definition transform_inputs (tr : list Event) : list (tjhandle * Z * Z * Z * Z) :=
  omap (λ e, match e with
             | EvTransform hd jpegBuf jpegSize n dstBuf _ _ _ _ _ =>
                 Some (hd, jpegBuf, jpegSize, n, dstBuf)
             | _ => None
             end) tr.

(** The pads buffers were pushed on. *)
Definition push_pads (tr : list Event) : list GstPad :=
  omap (λ e, match e with EvPush pad _ _ _ => Some pad | _ => None end) tr.

(** ** The enumeration type of the xop property *)

Definition GType : Set := Z.

(** The static variable of gst_jpegtran_xop_get_type, and the calls of
    g_enum_register_static made so far: type name and table. *)
Record XopTypeState : Type := {
  jpegtran_xop_type : GType;
  registered : list (string * list (Z * string))
}.

Definition xop_type_start : XopTypeState :=
  {| jpegtran_xop_type := 0; registered := [] |}.

(** gst_jpegtran_xop_get_type; [g_enum_register_static] answers with the new
    type. *)
Definition gst_jpegtran_xop_get_type
    (g_enum_register_static : string → list (Z * string) → GType)
    (st : XopTypeState) : GType * XopTypeState :=
  if jpegtran_xop_type st =? 0 then
    let t := g_enum_register_static "GstJpegTranXop" xop_types in
    (t, {| jpegtran_xop_type := t;
           registered := registered st ++ [("GstJpegTranXop", xop_types)] |})
  else (jpegtran_xop_type st, st).

(** [n] calls in a row: what each returned, and the state they leave. *)
Fixpoint xop_get_type_calls
    (g_enum_register_static : string → list (Z * string) → GType)
    (n : nat) (st : XopTypeState) : list GType * XopTypeState :=
  match n with
  | O => ([], st)
  | S n' =>
      let r := gst_jpegtran_xop_get_type g_enum_register_static st in
      let rs := xop_get_type_calls g_enum_register_static n' r.2 in
      (r.1 :: rs.1, rs.2)
  end.

(** ** The end of an element, and its properties over time *)

(** gst_jpegtran_finalize: the handles given to tjDestroy, in order. *)
Definition gst_jpegtran_finalize (filter : Gstjpegtran) : list tjhandle :=
  [tjHandle filter; tjInstance filter].

(** A series of gst_jpegtran_set_property calls: property id and value. *)
Definition set_properties (writes : list (Z * GValue)) (filter : Gstjpegtran) : Gstjpegtran :=
  foldl (λ f w, gst_jpegtran_set_property f w.1 w.2) filter writes.

(** ** Events on the sink pad *)

(** GST_EVENT_CAPS is GST_EVENT_MAKE_TYPE (50, downstream, serialized,
    sticky). *)
Definition GST_EVENT_CAPS : Z := 12814.

Record GstEvent : Set := { event_type : Z; event_caps : Z }.

Definition GstObject : Set := nat.

Inductive PadCall : Set :=
| CallParseCaps (event : GstEvent)
| CallEventDefault (pad : GstPad) (parent : GstObject) (event : GstEvent).

(** gst_jpegtran_sink_event: its return value and the calls it makes;
    [gst_pad_event_default] is the answer of the default handler. *)
Definition gst_jpegtran_sink_event
    (gst_pad_event_default : GstPad → GstObject → GstEvent → bool)
    (pad : GstPad) (parent : GstObject) (event : GstEvent) : bool * list PadCall :=
  if event_type event =? GST_EVENT_CAPS then
    let ret := gst_pad_event_default pad parent event in
    (ret, [CallParseCaps event; CallEventDefault pad parent event])
  else
    let ret := gst_pad_event_default pad parent event in
    (ret, [CallEventDefault pad parent event]).

(** The events handed on to the default handler. *)
Definition forwarded_events (calls : list PadCall) : list (GstPad * GstObject * GstEvent) :=
  omap (λ c, match c with
             | CallEventDefault pad parent event => Some (pad, parent, event)
             | _ => None
             end) calls.

(** ** A stream of buffers *)

(** The chain function called on one buffer after the other, each call
    finding the buffers the call before left: the return values, the
    buffers left at the end, and the events of all calls. *)
Fixpoint run_stream (env : Env) (self : Gstjpegtran) (inbufs : list GstBufferP)
    (h : gmap GstBufferP GstBuffer)
    : list GstFlowReturn * gmap GstBufferP GstBuffer * list Event :=
  match inbufs with
  | [] => ([], h, [])
  | p :: ps =>
      let r := run_chain env self p h in
      let rest := run_stream env self ps (bufs r.2) in
      (r.1 :: rest.1.1, rest.1.2, trace r.2 ++ rest.2)
  end.

(** ** Reference counting on the store *)

Lemma drop_ref_insert_ne (p q : GstBufferP) (x : GstBuffer) (m : gmap GstBufferP GstBuffer) :
  p ≠ q → drop_ref p (<[q := x]> m) = <[q := x]> (drop_ref p m).
Proof.
  intros N. unfold drop_ref. rewrite lookup_insert_ne by done.
  destruct (m !! p) as [buf|]; [|done].
  destruct (refcount buf <=? 1)%nat.
  - by rewrite delete_insert_ne.
  - by rewrite insert_insert_ne.
Qed.

Lemma drop_ref_insert_last (p : GstBufferP) (x : GstBuffer) (m : gmap GstBufferP GstBuffer) :
  refcount x = 1%nat → m !! p = None → drop_ref p (<[p := x]> m) = m.
Proof.
  intros R N. unfold drop_ref. rewrite lookup_insert_eq, R. cbn.
  by apply delete_insert_id.
Qed.

Lemma drop_ref_lookup_ne (p q : GstBufferP) (m : gmap GstBufferP GstBuffer) :
  p ≠ q → drop_ref p m !! q = m !! q.
Proof.
  intros N. unfold drop_ref. destruct (m !! p) as [buf|]; [|done].
  destruct (refcount buf <=? 1)%nat.
  - by rewrite lookup_delete_ne.
  - by rewrite lookup_insert_ne.
Qed.

Lemma set_mapcount_back (n : nat) (x : GstBuffer) :
  set_mapcount (Nat.pred (mapcount (set_mapcount (S n) x))) (set_mapcount (S n) x)
  = set_mapcount n x.
Proof. reflexivity. Qed.

Lemma set_mapcount_same (x : GstBuffer) : set_mapcount (mapcount x) x = x.
Proof. by destruct x. Qed.

Lemma gst_buffer_copy_into_refcount (src copy : GstBuffer) (fl off sz : Z) :
  gst_buffer_copy_into src fl off sz = Some copy →
  refcount copy = 1%nat ∧ mapcount copy = 0%nat.
Proof.
  unfold gst_buffer_copy_into. intros E.
  repeat case_match; simplify_eq; done.
Qed.

(** ** Running the operations one at a time *)

Lemma bind_run {A B} (m : M A) (f : A → M B) (w w' : World) (a : A) :
  m w = (a, w') → (m ≫= f) w = f a w'.
Proof. intros E. unfold mbind, M_bind. rewrite E. reflexivity. Qed.

(** One statement of the chain function: run it with the lemma that tells
    its result, and go on with the rest. *)
Ltac step lem := erewrite bind_run by (apply lem); cbv beta iota.

Section Steps.
Variable env : Env.

Lemma gst_buffer_map_run p fl buf w :
  bufs w !! p = Some buf →
  gst_buffer_map env p fl w =
    if env_map_ok env p fl
    then (Some (map_info_of buf),
          {| bufs := <[p := set_mapcount (S (mapcount buf)) buf]> (bufs w);
             trace := trace w ++ [EvMap p fl true] |})
    else (None, {| bufs := bufs w; trace := trace w ++ [EvMap p fl false] |}).
Proof.
  intros L. unfold gst_buffer_map.
  rewrite (bind_run _ _ w w (Some buf)) by (unfold lookup_buf; by rewrite L).
  by destruct (env_map_ok env p fl).
Qed.

Lemma gst_buffer_map_dead p fl w :
  bufs w !! p = None → gst_buffer_map env p fl w = (None, w).
Proof.
  intros L. unfold gst_buffer_map.
  by rewrite (bind_run _ _ w w None) by (unfold lookup_buf; by rewrite L).
Qed.

Lemma gst_buffer_unmap_run p w :
  gst_buffer_unmap p w =
    (tt, {| bufs := alter (λ buf, set_mapcount (Nat.pred (mapcount buf)) buf) p (bufs w);
            trace := trace w ++ [EvUnmap p] |}).
Proof. reflexivity. Qed.

Lemma gst_buffer_new_run w :
  gst_buffer_new w =
    (fresh (dom (bufs w)),
     {| bufs := <[fresh (dom (bufs w)) := new_buffer]> (bufs w);
        trace := trace w ++ [EvNew (fresh (dom (bufs w)))] |}).
Proof. reflexivity. Qed.

Lemma gst_buffer_unref_run p w :
  gst_buffer_unref p w =
    (tt, {| bufs := drop_ref p (bufs w); trace := trace w ++ [EvUnref p] |}).
Proof. reflexivity. Qed.

Lemma GST_ELEMENT_ERROR_run text w :
  GST_ELEMENT_ERROR text w =
    (tt, {| bufs := bufs w; trace := trace w ++ [EvElementError text] |}).
Proof. reflexivity. Qed.

Lemma error_unless_run (c : bool) text w :
  (if c then mret tt else GST_ELEMENT_ERROR text) w =
    (tt, {| bufs := bufs w;
            trace := trace w ++ (if c then [] else [EvElementError text]) |}).
Proof. destruct c, w; cbn; [by rewrite app_nil_r | reflexivity]. Qed.

Lemma error_if_run (c : bool) text w :
  (if c then GST_ELEMENT_ERROR text else mret tt) w =
    (tt, {| bufs := bufs w;
            trace := trace w ++ (if c then [EvElementError text] else []) |}).
Proof. destruct c, w; cbn; [reflexivity | by rewrite app_nil_r]. Qed.

Lemma gst_allocator_alloc_run sz w :
  gst_allocator_alloc env sz w =
    ((λ a, {| mem_addr := a; mem_size := sz |}) <$> env_alloc env sz,
     {| bufs := bufs w;
        trace := trace w ++ [EvAlloc sz ((λ a, {| mem_addr := a; mem_size := sz |})
                                          <$> env_alloc env sz)] |}).
Proof. reflexivity. Qed.

Lemma gst_buffer_append_memory_run p om w :
  gst_buffer_append_memory p om w =
    (tt, {| bufs := match om with
                    | Some m => alter (λ buf, set_memory (memory buf ++ [m]) buf) p (bufs w)
                    | None => bufs w
                    end;
            trace := trace w |}).
Proof. destruct om, w; reflexivity. Qed.

Lemma gst_buffer_copy_region_run p fl off sz buf w :
  bufs w !! p = Some buf →
  gst_buffer_copy_region p fl off sz w =
    match gst_buffer_copy_into buf fl off sz with
    | Some copy =>
        (Some (fresh (dom (bufs w))),
         {| bufs := <[fresh (dom (bufs w)) := copy]> (bufs w);
            trace := trace w ++ [EvCopyRegion p fl off sz (Some (fresh (dom (bufs w))))] |})
    | None =>
        (None, {| bufs := bufs w; trace := trace w ++ [EvCopyRegion p fl off sz None] |})
    end.
Proof.
  intros L. unfold gst_buffer_copy_region.
  rewrite (bind_run _ _ w w (Some buf)) by (unfold lookup_buf; by rewrite L).
  cbn. by destruct (gst_buffer_copy_into buf fl off sz).
Qed.

Lemma gst_buffer_copy_region_some p fl off sz buf copy w :
  bufs w !! p = Some buf →
  gst_buffer_copy_into buf fl off sz = Some copy →
  gst_buffer_copy_region p fl off sz w =
    (Some (fresh (dom (bufs w))),
     {| bufs := <[fresh (dom (bufs w)) := copy]> (bufs w);
        trace := trace w ++ [EvCopyRegion p fl off sz (Some (fresh (dom (bufs w))))] |}).
Proof. intros L E. by rewrite (gst_buffer_copy_region_run _ _ _ _ buf), E. Qed.

Lemma gst_buffer_copy_region_none p fl off sz buf w :
  bufs w !! p = Some buf →
  gst_buffer_copy_into buf fl off sz = None →
  gst_buffer_copy_region p fl off sz w =
    (None, {| bufs := bufs w; trace := trace w ++ [EvCopyRegion p fl off sz None] |}).
Proof. intros L E. by rewrite (gst_buffer_copy_region_run _ _ _ _ buf), E. Qed.

Lemma gst_pad_push_run pad p buf w :
  bufs w !! p = Some buf →
  gst_pad_push env pad (Some p) w =
    (env_push env pad buf,
     {| bufs := drop_ref p (bufs w);
        trace := trace w ++ [EvPush pad p buf (env_push env pad buf)] |}).
Proof.
  intros L. unfold gst_pad_push.
  by rewrite (bind_run _ _ w w (Some buf)) by (unfold lookup_buf; by rewrite L).
Qed.

Lemma gst_pad_push_null_run pad w :
  gst_pad_push env pad None w = (GST_FLOW_ERROR, w).
Proof. reflexivity. Qed.

Lemma tjDecompressHeader3_run self b w :
  tjDecompressHeader3 env (tjHandle self) (info_data (in_info b)) (info_size (in_info b)) w =
    (hdr env self b,
     {| bufs := bufs w;
        trace := trace w ++ [EvDecompressHeader (tjHandle self) (info_data (in_info b))
                               (info_size (in_info b)) (hdr_ret (hdr env self b))] |}).
Proof. reflexivity. Qed.

Lemma tjTransform_run self b w :
  tjTransform env (tjInstance self) (info_data (in_info b)) (info_size (in_info b)) 1
    (info_data (out_info env self b)) (info_size (out_info env self b))
    (xform self) TJFLAG_NOREALLOC w =
    (transformed env self b,
     {| bufs := bufs w;
        trace := trace w ++ [EvTransform (tjInstance self) (info_data (in_info b))
                               (info_size (in_info b)) 1
                               (info_data (out_info env self b))
                               (info_size (out_info env self b))
                               (xform self) TJFLAG_NOREALLOC
                               (transformed env self b).1 (dstSizes0 env self b)] |}).
Proof. reflexivity. Qed.
End Steps.

(** ** The ways through the chain function *)

Section Paths.
Variables (env : Env) (self : Gstjpegtran) (inbuf : GstBufferP).
Variables (h : gmap GstBufferP GstBuffer) (b : GstBuffer).
Hypothesis Hlive : h !! inbuf = Some b.

Lemma outbuf_fresh : h !! outbuf_of h = None.
Proof. unfold outbuf_of. apply not_elem_of_dom, is_fresh. Qed.

Lemma outbuf_not_inbuf : outbuf_of h ≠ inbuf.
Proof. intros E. pose proof outbuf_fresh as F. rewrite E, Hlive in F. done. Qed.

Lemma dom_mapped : dom (<[inbuf := set_mapcount (S (mapcount b)) b]> h) = dom h.
Proof.
  rewrite dom_insert_L. apply subseteq_union_1_L, singleton_subseteq_l.
  apply elem_of_dom. eauto.
Qed.

(** The input buffer cannot be mapped: lines 293-298. *)
Lemma run_chain_input_unmappable :
  env_map_ok env inbuf GST_MAP_READ = false →
  run_chain env self inbuf h =
    (GST_FLOW_ERROR,
     {| bufs := drop_ref inbuf h;
        trace := [EvMap inbuf GST_MAP_READ false;
                  EvElementError "Unable to map memory";
                  EvUnref inbuf] |}).
Proof.
  intros Hr. unfold run_chain, gst_jpegtran_chain.
  erewrite bind_run by (rewrite (gst_buffer_map_run _ _ _ b), Hr; done).
  reflexivity.
Qed.

Lemma out_buffer_counts :
  refcount (out_buffer env self b) = 1%nat ∧ mapcount (out_buffer env self b) = 0%nat.
Proof. unfold out_buffer. by destruct (mem env self b). Qed.

Lemma store_after_append (om : option GstMemory) (m : gmap GstBufferP GstBuffer) :
  match om with
  | Some x => alter (λ buf, set_memory (memory buf ++ [x]) buf) (outbuf_of h)
                (<[outbuf_of h := new_buffer]> m)
  | None => <[outbuf_of h := new_buffer]> m
  end
  = <[outbuf_of h := match om with
                | Some x => set_memory [x] new_buffer
                | None => new_buffer
                end]> m.
Proof. destruct om; [by rewrite alter_insert_eq | done]. Qed.

(** The output buffer cannot be mapped: lines 337-343. *)
Lemma run_chain_output_unmappable :
  env_map_ok env inbuf GST_MAP_READ = true →
  env_map_ok env (outbuf_of h) GST_MAP_WRITE = false →
  run_chain env self inbuf h =
    (GST_FLOW_ERROR,
     {| bufs := <[inbuf := set_mapcount (S (mapcount b)) b]> h;
        trace := trace_to_output_map env self inbuf h b false
                 ++ [EvElementError "Unable to map memory"; EvUnref (outbuf_of h)] |}).
Proof.
  intros Hr Hw. unfold run_chain, gst_jpegtran_chain.
  erewrite bind_run by (rewrite (gst_buffer_map_run _ _ _ b), Hr; done).
  cbv beta iota.
  step tjDecompressHeader3_run.
  step error_unless_run.
  step gst_buffer_new_run.
  step gst_allocator_alloc_run.
  step gst_buffer_append_memory_run.
  cbn [bufs trace]. rewrite dom_mapped. fold (outbuf_of h).
  rewrite store_after_append.
  erewrite bind_run
    by (rewrite (gst_buffer_map_run _ _ _ (out_buffer env self b)), Hw;
        [done | apply lookup_insert_eq]).
  cbv beta iota.
  step GST_ELEMENT_ERROR_run.
  step gst_buffer_unref_run.
  cbn [bufs trace]. unfold mret, M_ret. f_equal. f_equal.
  - apply drop_ref_insert_last; [apply out_buffer_counts|].
    rewrite lookup_insert_ne by (symmetry; apply outbuf_not_inbuf).
    apply outbuf_fresh.
  - unfold trace_to_output_map. rewrite <- !app_assoc. reflexivity.
Qed.

Lemma store_unmapped (ob : GstBuffer) :
  alter (λ buf, set_mapcount (Nat.pred (mapcount buf)) buf) (outbuf_of h)
    (alter (λ buf, set_mapcount (Nat.pred (mapcount buf)) buf) inbuf
       (<[outbuf_of h := set_mapcount (S (mapcount ob)) ob]>
          (<[outbuf_of h := ob]> (<[inbuf := set_mapcount (S (mapcount b)) b]> h))))
  = <[outbuf_of h := ob]> h.
Proof.
  rewrite insert_insert_eq.
  rewrite alter_insert_ne by (symmetry; apply outbuf_not_inbuf).
  rewrite alter_insert_eq, alter_insert_eq.
  rewrite !set_mapcount_back, !set_mapcount_same.
  by rewrite (insert_id h inbuf b).
Qed.

Lemma trimmedbuf_fresh :
  (<[outbuf_of h := out_buffer env self b]> h) !! trimmedbuf env self h b = None.
Proof. unfold trimmedbuf, outbuf_of. apply not_elem_of_dom, is_fresh. Qed.

(** Both mappings succeed: lines 345-380. *)
Lemma run_chain_through :
  env_map_ok env inbuf GST_MAP_READ = true →
  env_map_ok env (outbuf_of h) GST_MAP_WRITE = true →
  run_chain env self inbuf h =
    (push_result env self b,
     {| bufs := drop_ref inbuf h;
        trace := trace_to_output_map env self inbuf h b true
                 ++ trace_transform env self inbuf h b
                 ++ trace_forward env self inbuf h b |}).
Proof.
  intros Hr Hw. unfold run_chain, gst_jpegtran_chain.
  erewrite bind_run by (rewrite (gst_buffer_map_run _ _ _ b), Hr; done).
  cbv beta iota.
  step tjDecompressHeader3_run.
  step error_unless_run.
  step gst_buffer_new_run.
  step gst_allocator_alloc_run.
  step gst_buffer_append_memory_run.
  cbn [bufs trace]. rewrite dom_mapped. fold (outbuf_of h).
  rewrite store_after_append.
  change (match _ <$> env_alloc env _ with
          | Some x => set_memory [x] new_buffer
          | None => new_buffer
          end) with (out_buffer env self b).
  erewrite bind_run
    by (rewrite (gst_buffer_map_run _ _ _ (out_buffer env self b)), Hw;
        [done | apply lookup_insert_eq]).
  cbv beta iota.
  step tjTransform_run.
  step error_if_run.
  step gst_buffer_unmap_run.
  step gst_buffer_unmap_run.
  cbn [bufs trace].
  rewrite store_unmapped.
  unfold push_result, trace_forward.
  pose proof trimmedbuf_fresh as Hf.
  destruct (trimmed env self b) as [t|] eqn:Ht.
  - destruct (gst_buffer_copy_into_refcount _ _ _ _ _ Ht) as [Rt _].
    erewrite bind_run
      by (apply (gst_buffer_copy_region_some _ _ _ _ (out_buffer env self b) t);
          [apply lookup_insert_eq | exact Ht]).
    cbn [bufs trace].
    fold (outbuf_of (<[outbuf_of h := out_buffer env self b]> h)).
    fold (trimmedbuf env self h b).
    erewrite bind_run by (apply (gst_pad_push_run _ _ _ t); apply lookup_insert_eq).
    step gst_buffer_unref_run.
    step gst_buffer_unref_run.
    cbn [bufs trace]. unfold mret, M_ret. f_equal. f_equal.
    + rewrite drop_ref_insert_last by done.
      rewrite drop_ref_insert_ne by (symmetry; apply outbuf_not_inbuf).
      apply drop_ref_insert_last; [apply out_buffer_counts|].
      rewrite drop_ref_lookup_ne by (symmetry; apply outbuf_not_inbuf).
      apply outbuf_fresh.
    + unfold trace_to_output_map, trace_transform.
      rewrite <- !app_assoc. reflexivity.
  - erewrite bind_run
      by (apply (gst_buffer_copy_region_none _ _ _ _ (out_buffer env self b));
          [apply lookup_insert_eq | exact Ht]).
    rewrite (bind_run _ _ _ _ _ (gst_pad_push_null_run _ _ _)).
    step gst_buffer_unref_run.
    step gst_buffer_unref_run.
    cbn [bufs trace]. unfold mret, M_ret. f_equal. f_equal.
    + rewrite drop_ref_insert_ne by (symmetry; apply outbuf_not_inbuf).
      apply drop_ref_insert_last; [apply out_buffer_counts|].
      rewrite drop_ref_lookup_ne by (symmetry; apply outbuf_not_inbuf).
      apply outbuf_fresh.
    + unfold trace_to_output_map, trace_transform.
      rewrite <- !app_assoc. reflexivity.
Qed.
End Paths.

(** An address that names no live buffer: gst_buffer_map refuses it. *)
Lemma run_chain_dead (env : Env) (self : Gstjpegtran) (inbuf : GstBufferP)
    (h : gmap GstBufferP GstBuffer) :
  h !! inbuf = None →
  run_chain env self inbuf h =
    (GST_FLOW_ERROR,
     {| bufs := h;
        trace := [EvElementError "Unable to map memory"; EvUnref inbuf] |}).
Proof.
  intros L. unfold run_chain, gst_jpegtran_chain.
  erewrite bind_run by (by apply gst_buffer_map_dead).
  cbv beta iota.
  step GST_ELEMENT_ERROR_run.
  step gst_buffer_unref_run.
  cbn [bufs trace]. unfold mret, M_ret, drop_ref. by rewrite L.
Qed.

(** ** Sizes *)

Lemma to_gsize_range (z : Z) : 0 ≤ to_gsize z ≤ G_MAXSIZE.
Proof.
  unfold to_gsize, G_MAXSIZE.
  pose proof (Z.mod_pos_bound z (2 ^ 64) ltac:(lia)). lia.
Qed.

Lemma capacity_range (env : Env) (self : Gstjpegtran) (b : GstBuffer) :
  0 ≤ capacity env self b ≤ G_MAXSIZE.
Proof. apply to_gsize_range. Qed.

Lemma dstSizes0_range (env : Env) (self : Gstjpegtran) (b : GstBuffer) :
  0 ≤ dstSizes0 env self b ≤ G_MAXSIZE.
Proof. apply to_gsize_range. Qed.

Lemma gst_buffer_get_size_mem_nonneg (ms : list GstMemory) :
  Forall (λ m, 0 ≤ mem_size m) ms → 0 ≤ gst_buffer_get_size_mem ms.
Proof. induction 1; cbn; lia. Qed.

(** A region that lies inside the memory is copied in full. *)
Lemma copy_memory_size (ms : list GstMemory) :
  Forall (λ m, 0 ≤ mem_size m) ms →
  ∀ skip left,
    0 ≤ skip → 0 ≤ left → skip + left ≤ gst_buffer_get_size_mem ms →
    gst_buffer_get_size_mem (copy_memory ms skip left) = left.
Proof.
  induction 1 as [|m ms Hm Hms IH]; intros skip left Hs Hl Hfit; cbn in *.
  - lia.
  - pose proof (gst_buffer_get_size_mem_nonneg ms Hms) as Hrest.
    destruct (Z.leb_spec left 0) as [L0|L0]; [cbn; lia|].
    destruct (Z.leb_spec (mem_size m) skip) as [Sk|Sk].
    + apply IH; lia.
    + cbn. rewrite IH; lia.
Qed.

(** The output buffer holds the capacity when the allocator served it, and
    nothing otherwise. *)
Lemma out_info_size (env : Env) (self : Gstjpegtran) (b : GstBuffer) :
  info_size (out_info env self b)
  = match mem env self b with Some _ => capacity env self b | None => 0 end.
Proof.
  unfold out_info, map_info_of, gst_buffer_get_size, out_buffer, mem.
  destruct (env_alloc env (capacity env self b)); cbn; lia.
Qed.

Lemma out_info_size_le (env : Env) (self : Gstjpegtran) (b : GstBuffer) :
  0 ≤ info_size (out_info env self b) ≤ capacity env self b.
Proof.
  rewrite out_info_size. pose proof (capacity_range env self b).
  destruct (mem env self b); lia.
Qed.

Lemma out_buffer_memory (env : Env) (self : Gstjpegtran) (b : GstBuffer) :
  Forall (λ m, 0 ≤ mem_size m) (memory (out_buffer env self b)).
Proof.
  unfold out_buffer, mem. pose proof (capacity_range env self b).
  destruct (env_alloc env (capacity env self b)); cbn; repeat constructor; cbn; lia.
Qed.

(** When the codec reports no more bytes than the output region holds, the
    trim yields a buffer of exactly that many bytes whose timestamps and
    offsets are those of the output buffer, that is, none. *)
Lemma trimmed_fits (env : Env) (self : Gstjpegtran) (b : GstBuffer) :
  dstSizes0 env self b ≤ info_size (out_info env self b) →
  ∃ t, trimmed env self b = Some t
       ∧ gst_buffer_get_size t = dstSizes0 env self b
       ∧ mapcount t = 0%nat
       ∧ pts t = GST_CLOCK_TIME_NONE ∧ dts t = GST_CLOCK_TIME_NONE
       ∧ duration t = GST_CLOCK_TIME_NONE
       ∧ offset t = GST_BUFFER_OFFSET_NONE
       ∧ offset_end t = GST_BUFFER_OFFSET_NONE.
Proof.
  intros Hfit.
  pose proof (dstSizes0_range env self b) as Hd.
  pose proof (out_info_size_le env self b) as Ho.
  pose proof (capacity_range env self b) as Hc.
  pose proof (out_buffer_memory env self b) as Hm.
  unfold trimmed, gst_buffer_copy_into.
  change (gst_buffer_get_size (out_buffer env self b))
    with (info_size (out_info env self b)) in *.
  set (sz := if dstSizes0 env self b =? G_MAXSIZE
             then info_size (out_info env self b) - 0
             else dstSizes0 env self b).
  assert (sz = dstSizes0 env self b) as Hsz.
  { unfold sz. destruct (Z.eqb_spec (dstSizes0 env self b) G_MAXSIZE); lia. }
  destruct (Z.ltb_spec (info_size (out_info env self b)) 0); [lia|].
  destruct (Z.ltb_spec (info_size (out_info env self b)) (0 + sz)); [lia|].
  eexists. split; [reflexivity|].
  assert (has_flag trim_copy_flags GST_BUFFER_COPY_MEMORY = true) as -> by reflexivity.
  assert (has_flag trim_copy_flags GST_BUFFER_COPY_TIMESTAMPS = true) as -> by reflexivity.
  cbn [gst_buffer_get_size memory mapcount pts dts duration offset offset_end].
  split.
  { unfold gst_buffer_get_size. cbn [memory].
    rewrite copy_memory_size; [lia | done | lia | lia |].
    change (gst_buffer_get_size_mem (memory (out_buffer env self b)))
      with (info_size (out_info env self b)). lia. }
  assert (pts (out_buffer env self b) = GST_CLOCK_TIME_NONE
          ∧ dts (out_buffer env self b) = GST_CLOCK_TIME_NONE
          ∧ duration (out_buffer env self b) = GST_CLOCK_TIME_NONE
          ∧ offset (out_buffer env self b) = GST_BUFFER_OFFSET_NONE
          ∧ offset_end (out_buffer env self b) = GST_BUFFER_OFFSET_NONE)
    as (-> & -> & -> & -> & ->).
  { unfold out_buffer. by destruct (mem env self b). }
  destruct (sz =? info_size (out_info env self b)); repeat split; reflexivity.
Qed.

(** ** Reading the traces of the three ways *)

Section Readings.
Variables (env : Env) (self : Gstjpegtran) (inbuf : GstBufferP).
Variables (h : gmap GstBufferP GstBuffer) (b : GstBuffer).

Lemma pushed_to_output_map ok :
  pushed (trace_to_output_map env self inbuf h b ok) = [].
Proof.
  unfold trace_to_output_map. by destruct (hdr_ret (hdr env self b) =? 0).
Qed.

Lemma pushed_transform : pushed (trace_transform env self inbuf h b) = [].
Proof.
  unfold trace_transform. by destruct ((transformed env self b).1 <? 0).
Qed.

Lemma pushed_forward :
  pushed (trace_forward env self inbuf h b) = option_list (trimmed env self b).
Proof. unfold trace_forward. by destruct (trimmed env self b). Qed.

Lemma pushed_through :
  pushed (trace_to_output_map env self inbuf h b true
          ++ trace_transform env self inbuf h b
          ++ trace_forward env self inbuf h b)
  = option_list (trimmed env self b).
Proof.
  unfold pushed. rewrite !omap_app.
  fold (pushed (trace_to_output_map env self inbuf h b true)).
  fold (pushed (trace_transform env self inbuf h b)).
  fold (pushed (trace_forward env self inbuf h b)).
  by rewrite pushed_to_output_map, pushed_transform, pushed_forward.
Qed.
End Readings.

(** ** Both mappings succeed and the trim fits *)

Section Forwarding.
Variables (env : Env) (self : Gstjpegtran) (inbuf : GstBufferP).
Variables (h : gmap GstBufferP GstBuffer) (b : GstBuffer).
Hypothesis Hlive : h !! inbuf = Some b.
Hypothesis Hread : env_map_ok env inbuf GST_MAP_READ = true.
Hypothesis Hwrite : env_map_ok env (outbuf_of h) GST_MAP_WRITE = true.

Lemma run_chain_forwards (t : GstBuffer) :
  trimmed env self b = Some t →
  run_chain env self inbuf h =
    (env_push env (srcpad self) t,
     {| bufs := drop_ref inbuf h;
        trace := trace_to_output_map env self inbuf h b true
                 ++ trace_transform env self inbuf h b
                 ++ [EvCopyRegion (outbuf_of h) trim_copy_flags 0 (dstSizes0 env self b)
                       (Some (trimmedbuf env self h b));
                     EvPush (srcpad self) (trimmedbuf env self h b) t
                       (env_push env (srcpad self) t);
                     EvUnref inbuf; EvUnref (outbuf_of h)] |}).
Proof.
  intros Ht. rewrite (run_chain_through env self inbuf h b) by done.
  unfold push_result, trace_forward. by rewrite Ht.
Qed.

Lemma pushed_forwards (t : GstBuffer) :
  trimmed env self b = Some t →
  pushed (trace (run_chain env self inbuf h).2) = [t].
Proof.
  intros Ht. rewrite (run_chain_through env self inbuf h b) by done.
  cbn [snd trace]. rewrite pushed_through. by rewrite Ht.
Qed.

Lemma transform_calls_through :
  transform_calls (trace (run_chain env self inbuf h).2)
  = [(xform self, TJFLAG_NOREALLOC, info_size (out_info env self b),
      dstSizes0 env self b)].
Proof.
  rewrite (run_chain_through env self inbuf h b) by done.
  cbn [snd trace]. unfold trace_to_output_map, trace_transform, trace_forward.
  destruct (hdr_ret (hdr env self b) =? 0), ((transformed env self b).1 <? 0),
    (trimmed env self b); reflexivity.
Qed.
Lemma posted_through :
  posted (trace (run_chain env self inbuf h).2)
  = (if hdr_ret (hdr env self b) =? 0 then [] else ["cannot decompress header"])
    ++ (if (transformed env self b).1 <? 0 then ["tjTransform failed"] else []).
Proof.
  rewrite (run_chain_through env self inbuf h b) by done.
  cbn [snd trace]. unfold trace_to_output_map, trace_transform, trace_forward.
  destruct (hdr_ret (hdr env self b) =? 0), ((transformed env self b).1 <? 0),
    (trimmed env self b); reflexivity.
Qed.

Lemma alloc_requests_through :
  alloc_requests (trace (run_chain env self inbuf h).2) = [capacity env self b].
Proof.
  rewrite (run_chain_through env self inbuf h b) by done.
  cbn [snd trace]. unfold trace_to_output_map, trace_transform, trace_forward.
  destruct (hdr_ret (hdr env self b) =? 0), ((transformed env self b).1 <? 0),
    (trimmed env self b); reflexivity.
Qed.
End Forwarding.

(** ** The downstream result is the stage's result *)




(** ** Capacity and the no-reallocation call *)




(** ** Transform and trim *)





(** ** The xop property *)

Lemma gst_jpegtran_init_xop (env : Env) (sink src : GstPad) (w : World) :
  xop (gst_jpegtran_init env sink src w).1 = DEFAULT_XOP.
Proof.
  unfold gst_jpegtran_init.
  step error_if_run.
  step error_if_run.
  reflexivity.
Qed.

Lemma get_after_set (filter : Gstjpegtran) (v : Z) (value : GValue) :
  gst_jpegtran_get_property (gst_jpegtran_set_property filter PROP_XOP v) PROP_XOP value = v.
Proof. reflexivity. Qed.

Lemma all_xops_complete (v : TJXOP) : v ∈ all_xops.
Proof. destruct v; unfold all_xops; set_solver. Qed.

(** The registered table lists the eight operations, in order. *)
Lemma xop_types_values : xop_types.*1 = xop_value <$> all_xops.
Proof. reflexivity. Qed.

(** C9: a new element has xop = none; reading the property after setting it
    to any of the eight operations gives that operation back; and an
    invocation of the chain function that follows the setting hands that
    operation to tjTransform. *)
Theorem xop_property
    (env : Env) (filter : Gstjpegtran) (inbuf : GstBufferP)
    (h : gmap GstBufferP GstBuffer) (b : GstBuffer) :
  h !! inbuf = Some b →
  env_map_ok env inbuf GST_MAP_READ = true →
  env_map_ok env (outbuf_of h) GST_MAP_WRITE = true →
  (∀ sink src w, xop (gst_jpegtran_init env sink src w).1 = xop_value TJXOP_NONE)
  ∧ (∀ (v : TJXOP) value,
       gst_jpegtran_get_property
         (gst_jpegtran_set_property filter PROP_XOP (xop_value v)) PROP_XOP value
       = xop_value v)
  ∧ (∀ v : TJXOP,
       transform_ops
         (trace (run_chain env (gst_jpegtran_set_property filter PROP_XOP (xop_value v))
                   inbuf h).2)
       = [xop_value v]).
Proof.
  intros Hlive Hread Hwrite. split; [|split].
  - intros. apply gst_jpegtran_init_xop.
  - intros. apply get_after_set.
  - intros v. unfold transform_ops.
    by rewrite (transform_calls_through env _ inbuf h b).
Qed.

Lemma xop_property_witness :
  (∀ sink src w, xop (gst_jpegtran_init Inputs.env sink src w).1 = xop_value TJXOP_NONE)
  ∧ (∀ (v : TJXOP) value,
       gst_jpegtran_get_property
         (gst_jpegtran_set_property Inputs.none PROP_XOP (xop_value v)) PROP_XOP value
       = xop_value v)
  ∧ (∀ v : TJXOP,
       transform_ops
         (trace (run_chain Inputs.env
                   (gst_jpegtran_set_property Inputs.none PROP_XOP (xop_value v))
                   Inputs.inbuf Inputs.image_store).2)
       = [xop_value v]).
Proof.
  apply (xop_property Inputs.env Inputs.none Inputs.inbuf Inputs.image_store Inputs.image);
    vm_compute; reflexivity.
Defined.

(** ** Nothing is pushed while mapped *)

Lemma pushed_app (l1 l2 : list Event) : pushed (l1 ++ l2) = pushed l1 ++ pushed l2.
Proof. apply omap_app. Qed.

(** A trace with one push splits around it in one way only. *)
Lemma split_at_push (front back pre post : list Event) pad p sent r pad' p' sent' r' :
  pushed front = [] → pushed back = [] →
  front ++ EvPush pad p sent r :: back = pre ++ EvPush pad' p' sent' r' :: post →
  pre = front ∧ sent' = sent.
Proof.
  intros Hf Hb. revert pre. induction front as [|e front IH]; intros pre E.
  - destruct pre as [|e' pre]; cbn in E.
    + by simplify_eq.
    + simplify_eq. rewrite pushed_app in Hb.
      apply app_eq_nil in Hb as [_ Hb]. discriminate.
  - destruct pre as [|e' pre]; cbn in E.
    + simplify_eq.
    + injection E as -> E.
      assert (pushed front = []) as Hf'.
      { destruct e'; cbn in Hf; done. }
      destruct (IH Hf' pre E) as [-> ->]. done.
Qed.

Lemma no_push_no_split (tr pre post : list Event) pad p sent r :
  pushed tr = [] → tr ≠ pre ++ EvPush pad p sent r :: post.
Proof.
  intros Hn ->. rewrite pushed_app in Hn.
  apply app_eq_nil in Hn as [_ Hn]. discriminate.
Qed.

(** C8: at every push, each mapping the chain function has opened has been
    closed again - gst_buffer_unmap of the input and of the output buffer
    both come before it - and the buffer pushed is itself not mapped. *)
Theorem no_push_while_mapped
    (env : Env) (self : Gstjpegtran) (inbuf : GstBufferP)
    (h : gmap GstBufferP GstBuffer)
    (pre post : list Event) (pad : GstPad) (p : GstBufferP) (sent : GstBuffer)
    (r : GstFlowReturn) :
  trace (run_chain env self inbuf h).2 = pre ++ EvPush pad p sent r :: post →
  still_mapped pre = []
  ∧ EvUnmap inbuf ∈ pre ∧ EvUnmap (outbuf_of h) ∈ pre
  ∧ mapcount sent = 0%nat.
Proof.
  destruct (h !! inbuf) as [b|] eqn:Hlive.
  2: { rewrite run_chain_dead by done. intros E.
       by apply no_push_no_split in E. }
  destruct (env_map_ok env inbuf GST_MAP_READ) eqn:Hread.
  2: { rewrite (run_chain_input_unmappable env self inbuf h b) by done. intros E.
       by apply no_push_no_split in E. }
  destruct (env_map_ok env (outbuf_of h) GST_MAP_WRITE) eqn:Hwrite.
  2: { rewrite (run_chain_output_unmappable env self inbuf h b) by done. intros E.
       cbn [snd trace] in E.
       exfalso. eapply no_push_no_split; [|exact E].
       by rewrite pushed_app, pushed_to_output_map. }
  destruct (trimmed env self b) as [t|] eqn:Ht.
  2: { rewrite (run_chain_through env self inbuf h b) by done. intros E.
       cbn [snd trace] in E.
       exfalso. eapply no_push_no_split; [|exact E].
       by rewrite pushed_through, Ht. }
  rewrite (run_chain_forwards env self inbuf h b) with (t := t) by done.
  cbn [snd trace]. intros E.
  rewrite !app_assoc in E.
  rewrite <- (app_assoc _ _ (_ :: _)) in E.
  change (?a ++ [?c; ?e; ?u1; ?u2]) with (a ++ [c] ++ e :: [u1; u2]) in E.
  rewrite !app_assoc in E.
  apply split_at_push in E as [-> ->].
  - pose proof (outbuf_not_inbuf inbuf h b Hlive) as Hne.
    repeat split.
    + unfold trace_to_output_map, trace_transform, still_mapped.
      destruct (hdr_ret _ =? 0), (_ <? 0); cbn;
        repeat (case_decide; try congruence; cbn).
    + unfold trace_transform. rewrite !elem_of_app, !elem_of_cons. tauto.
    + unfold trace_transform. rewrite !elem_of_app, !elem_of_cons. tauto.
    + by apply (gst_buffer_copy_into_refcount _ _ _ _ _ Ht).
  - rewrite !pushed_app, pushed_to_output_map, pushed_transform. done.
  - done.
Qed.

Lemma no_push_while_mapped_witness :
  still_mapped Inputs.image_pre = []
  ∧ EvUnmap Inputs.inbuf ∈ Inputs.image_pre
  ∧ EvUnmap (outbuf_of Inputs.image_store) ∈ Inputs.image_pre
  ∧ mapcount Inputs.image_trimmed = 0%nat.
Proof.
  apply (no_push_while_mapped Inputs.env Inputs.rot90 Inputs.inbuf Inputs.image_store
           Inputs.image_pre Inputs.image_post 11%nat 7%nat Inputs.image_trimmed
           GST_FLOW_OK).
  vm_compute. reflexivity.
Defined.

(** ** Timestamps of the pushed buffer *)

(** C4 (not met by the code): the buffer pushed downstream takes its
    timestamps and offsets from the output buffer, by way of
    GST_BUFFER_COPY_TIMESTAMPS in the trim, and gst_buffer_new left the
    output buffer without any; those of the input buffer are never read.
    So whatever the input carries, the pushed buffer has pts, dts and
    duration GST_CLOCK_TIME_NONE and both offsets GST_BUFFER_OFFSET_NONE. *)
Theorem pushed_buffer_is_unstamped
    (env : Env) (self : Gstjpegtran) (inbuf : GstBufferP)
    (h : gmap GstBufferP GstBuffer) (b : GstBuffer) :
  h !! inbuf = Some b →
  env_map_ok env inbuf GST_MAP_READ = true →
  env_map_ok env (outbuf_of h) GST_MAP_WRITE = true →
  within_region env self b →
  ∃ t, pushed (trace (run_chain env self inbuf h).2) = [t]
       ∧ pts t = GST_CLOCK_TIME_NONE ∧ dts t = GST_CLOCK_TIME_NONE
       ∧ duration t = GST_CLOCK_TIME_NONE
       ∧ offset t = GST_BUFFER_OFFSET_NONE
       ∧ offset_end t = GST_BUFFER_OFFSET_NONE.
Proof.
  intros Hlive Hread Hwrite Hfit.
  destruct (trimmed_fits env self b Hfit) as (t & Ht & _ & _ & Hstamps).
  exists t. split; [|exact Hstamps].
  by apply (pushed_forwards env self inbuf h b).
Qed.

Lemma pushed_buffer_is_unstamped_witness :
  pts Inputs.image = 90000
  ∧ ∃ t, pushed (trace (run_chain Inputs.env Inputs.rot90 Inputs.inbuf
                          Inputs.image_store).2) = [t]
         ∧ pts t = GST_CLOCK_TIME_NONE ∧ dts t = GST_CLOCK_TIME_NONE
         ∧ duration t = GST_CLOCK_TIME_NONE
         ∧ offset t = GST_BUFFER_OFFSET_NONE
         ∧ offset_end t = GST_BUFFER_OFFSET_NONE.
Proof.
  split; [reflexivity|].
  apply (pushed_buffer_is_unstamped Inputs.env Inputs.rot90 Inputs.inbuf
           Inputs.image_store Inputs.image).
  - vm_compute. reflexivity.
  - vm_compute. reflexivity.
  - vm_compute. reflexivity.
  - unfold within_region. vm_compute. discriminate.
Defined.

(** ** Failures that do not stop the chain function *)

(** C1 (not met by the code): when tjDecompressHeader3 fails, the chain
    function posts "cannot decompress header" and goes on as if it had not:
    it asks the allocator for tjBufSize of whatever the probe left in width,
    height and jpegSubsamp, calls tjTransform, pushes the trimmed buffer
    downstream and returns what the peer returned. *)
Theorem header_failure_is_passed_over
    (env : Env) (self : Gstjpegtran) (inbuf : GstBufferP)
    (h : gmap GstBufferP GstBuffer) (b : GstBuffer) :
  h !! inbuf = Some b →
  env_map_ok env inbuf GST_MAP_READ = true →
  hdr_ret (hdr env self b) ≠ 0 →
  env_map_ok env (outbuf_of h) GST_MAP_WRITE = true →
  within_region env self b →
  let r := run_chain env self inbuf h in
  ∃ t, head (posted (trace r.2)) = Some "cannot decompress header"
       ∧ alloc_requests (trace r.2) = [capacity env self b]
       ∧ transform_ops (trace r.2) = [xop self]
       ∧ pushed (trace r.2) = [t]
       ∧ r.1 = env_push env (srcpad self) t.
Proof.
  intros Hlive Hread Hhdr Hwrite Hfit r.
  destruct (trimmed_fits env self b Hfit) as (t & Ht & _).
  exists t. unfold r. repeat split.
  - rewrite (posted_through env self inbuf h b) by done.
    by destruct (Z.eqb_spec (hdr_ret (hdr env self b)) 0).
  - by apply alloc_requests_through.
  - unfold transform_ops. by rewrite (transform_calls_through env self inbuf h b).
  - by apply (pushed_forwards env self inbuf h b).
  - by rewrite (run_chain_forwards env self inbuf h b Hlive Hread Hwrite t Ht).
Qed.

Lemma header_failure_is_passed_over_witness :
  let r := run_chain Inputs.env Inputs.rot90 Inputs.inbuf Inputs.stub_store in
  ∃ t, head (posted (trace r.2)) = Some "cannot decompress header"
       ∧ alloc_requests (trace r.2) = [capacity Inputs.env Inputs.rot90 Inputs.stub]
       ∧ transform_ops (trace r.2) = [xop Inputs.rot90]
       ∧ pushed (trace r.2) = [t]
       ∧ r.1 = env_push Inputs.env (srcpad Inputs.rot90) t.
Proof.
  apply (header_failure_is_passed_over Inputs.env Inputs.rot90 Inputs.inbuf
           Inputs.stub_store Inputs.stub).
  - vm_compute. reflexivity.
  - vm_compute. reflexivity.
  - vm_compute. discriminate.
  - vm_compute. reflexivity.
  - unfold within_region. vm_compute. discriminate.
Defined.

(** C2 (not met by the code): when tjTransform returns a negative value, the
    chain function posts "tjTransform failed" and goes on: it trims the
    output buffer to whatever dstSizes[0] holds, pushes that buffer
    downstream and returns what the peer returned. *)
Theorem transform_failure_is_passed_over
    (env : Env) (self : Gstjpegtran) (inbuf : GstBufferP)
    (h : gmap GstBufferP GstBuffer) (b : GstBuffer) :
  h !! inbuf = Some b →
  env_map_ok env inbuf GST_MAP_READ = true →
  env_map_ok env (outbuf_of h) GST_MAP_WRITE = true →
  (transformed env self b).1 < 0 →
  within_region env self b →
  let r := run_chain env self inbuf h in
  ∃ t, last (posted (trace r.2)) = Some "tjTransform failed"
       ∧ pushed (trace r.2) = [t]
       ∧ gst_buffer_get_size t = dstSizes0 env self b
       ∧ r.1 = env_push env (srcpad self) t.
Proof.
  intros Hlive Hread Hwrite Hneg Hfit r.
  destruct (trimmed_fits env self b Hfit) as (t & Ht & Hsize & _).
  exists t. unfold r. repeat split.
  - rewrite (posted_through env self inbuf h b) by done.
    destruct (Z.ltb_spec (transformed env self b).1 0); [|lia].
    by destruct (hdr_ret (hdr env self b) =? 0).
  - by apply (pushed_forwards env self inbuf h b).
  - done.
  - by rewrite (run_chain_forwards env self inbuf h b Hlive Hread Hwrite t Ht).
Qed.

Lemma transform_failure_is_passed_over_witness :
  let r := run_chain Inputs.env Inputs.rot90 Inputs.inbuf Inputs.torso_store in
  ∃ t, last (posted (trace r.2)) = Some "tjTransform failed"
       ∧ pushed (trace r.2) = [t]
       ∧ gst_buffer_get_size t = dstSizes0 Inputs.env Inputs.rot90 Inputs.torso
       ∧ r.1 = env_push Inputs.env (srcpad Inputs.rot90) t.
Proof.
  apply (transform_failure_is_passed_over Inputs.env Inputs.rot90 Inputs.inbuf
           Inputs.torso_store Inputs.torso).
  - vm_compute. reflexivity.
  - vm_compute. reflexivity.
  - vm_compute. reflexivity.
  - vm_compute. reflexivity.
  - unfold within_region. vm_compute. discriminate.
Defined.

(** ** Release of the input buffer *)

(** C3 (not met by the code on one path): when the input buffer cannot be
    mapped, and when both buffers can, the chain function leaves no mapping
    open and gives up its reference to the input buffer exactly once.  When
    the output buffer cannot be mapped it returns GST_FLOW_ERROR with the
    input buffer still mapped and still referenced. *)
Theorem input_release_by_path
    (env : Env) (self : Gstjpegtran) (inbuf : GstBufferP)
    (h : gmap GstBufferP GstBuffer) (b : GstBuffer) :
  h !! inbuf = Some b →
  let r := run_chain env self inbuf h in
  let released :=
    bufs r.2 = drop_ref inbuf h
    ∧ unrefs inbuf (trace r.2) = 1%nat
    ∧ still_mapped (trace r.2) = [] in
  (env_map_ok env inbuf GST_MAP_READ = false → released)
  ∧ (env_map_ok env inbuf GST_MAP_READ = true →
     env_map_ok env (outbuf_of h) GST_MAP_WRITE = true → released)
  ∧ (env_map_ok env inbuf GST_MAP_READ = true →
     env_map_ok env (outbuf_of h) GST_MAP_WRITE = false →
     r.1 = GST_FLOW_ERROR
     ∧ bufs r.2 = <[inbuf := set_mapcount (S (mapcount b)) b]> h
     ∧ unrefs inbuf (trace r.2) = 0%nat
     ∧ still_mapped (trace r.2) = [inbuf]).
Proof.
  intros Hlive r released.
  pose proof (outbuf_not_inbuf inbuf h b Hlive) as Hne.
  unfold released, r. split; [|split].
  - intros Hread.
    rewrite (run_chain_input_unmappable env self inbuf h b) by done.
    cbn [snd bufs trace]. unfold unrefs, still_mapped. cbn.
    by rewrite decide_True.
  - intros Hread Hwrite.
    rewrite (run_chain_through env self inbuf h b) by done.
    cbn [snd bufs trace].
    unfold trace_to_output_map, trace_transform, trace_forward, unrefs, still_mapped.
    destruct (hdr_ret (hdr env self b) =? 0), ((transformed env self b).1 <? 0),
      (trimmed env self b); cbn;
      repeat (case_decide; try congruence; cbn); done.
  - intros Hread Hwrite.
    rewrite (run_chain_output_unmappable env self inbuf h b) by done.
    cbn [fst snd bufs trace].
    unfold trace_to_output_map, unrefs, still_mapped.
    destruct (hdr_ret (hdr env self b) =? 0); cbn;
      repeat (case_decide; try congruence; cbn); done.
Qed.

Lemma input_release_by_path_witness :
  let r := run_chain Inputs.env_nomap Inputs.rot90 Inputs.inbuf Inputs.image_store in
  let released :=
    bufs r.2 = drop_ref Inputs.inbuf Inputs.image_store
    ∧ unrefs Inputs.inbuf (trace r.2) = 1%nat
    ∧ still_mapped (trace r.2) = [] in
  (env_map_ok Inputs.env_nomap Inputs.inbuf GST_MAP_READ = false → released)
  ∧ (env_map_ok Inputs.env_nomap Inputs.inbuf GST_MAP_READ = true →
     env_map_ok Inputs.env_nomap (outbuf_of Inputs.image_store) GST_MAP_WRITE = true →
     released)
  ∧ (env_map_ok Inputs.env_nomap Inputs.inbuf GST_MAP_READ = true →
     env_map_ok Inputs.env_nomap (outbuf_of Inputs.image_store) GST_MAP_WRITE = false →
     r.1 = GST_FLOW_ERROR
     ∧ bufs r.2 = <[Inputs.inbuf := set_mapcount (S (mapcount Inputs.image)) Inputs.image]>
                    Inputs.image_store
     ∧ unrefs Inputs.inbuf (trace r.2) = 0%nat
     ∧ still_mapped (trace r.2) = [Inputs.inbuf]).
Proof.
  apply (input_release_by_path Inputs.env_nomap Inputs.rot90 Inputs.inbuf
           Inputs.image_store Inputs.image).
  vm_compute. reflexivity.
Defined.

(** The leak at a concrete input: an image whose output buffer cannot be
    mapped stays mapped and keeps its reference. *)
Example output_map_failure_leaks :
  let r := run_chain Inputs.env_nomap Inputs.rot90 Inputs.inbuf Inputs.image_store in
  r.1 = GST_FLOW_ERROR
  ∧ bufs r.2 !! Inputs.inbuf = Some (set_mapcount 1 Inputs.image)
  ∧ unrefs Inputs.inbuf (trace r.2) = 0%nat.
Proof. vm_compute. done. Qed.

(** ** Allocation failure *)

(** C5 (not met by the code): the chain function does not look at what the
    allocator returned, and has no allocation failure to report.  When the
    allocator returned no memory, the output buffer is left empty and mapped
    next.  If that mapping fails, "Unable to map memory" is posted, the
    output buffer is released, nothing is pushed and GST_FLOW_ERROR is
    returned.  If it succeeds, tjTransform is called all the same, on an
    output region of size 0, and the invocation ends like any other: the
    input buffer is released and the return value is that of
    gst_pad_push. *)
Theorem allocation_failure_is_not_checked
    (env : Env) (self : Gstjpegtran) (inbuf : GstBufferP)
    (h : gmap GstBufferP GstBuffer) (b : GstBuffer) :
  h !! inbuf = Some b →
  env_map_ok env inbuf GST_MAP_READ = true →
  env_alloc env (capacity env self b) = None →
  let r := run_chain env self inbuf h in
  (env_map_ok env (outbuf_of h) GST_MAP_WRITE = false →
     r.1 = GST_FLOW_ERROR
     ∧ last (posted (trace r.2)) = Some "Unable to map memory"
     ∧ bufs r.2 !! outbuf_of h = None
     ∧ pushed (trace r.2) = [])
  ∧ (env_map_ok env (outbuf_of h) GST_MAP_WRITE = true →
     transform_regions (trace r.2) = [(TJFLAG_NOREALLOC, 0)]
     ∧ bufs r.2 = drop_ref inbuf h
     ∧ r.1 = push_result env self b).
Proof.
  intros Hlive Hread Halloc r. unfold r. split.
  - intros Hwrite.
    rewrite (run_chain_output_unmappable env self inbuf h b) by done.
    cbn [fst snd bufs trace]. repeat split.
    + unfold trace_to_output_map.
      by destruct (hdr_ret (hdr env self b) =? 0).
    + rewrite lookup_insert_ne by (symmetry; by apply (outbuf_not_inbuf inbuf h b)).
      apply outbuf_fresh.
    + by rewrite pushed_app, pushed_to_output_map.
  - intros Hwrite. repeat split.
    + unfold transform_regions.
      rewrite (transform_calls_through env self inbuf h b) by done.
      change ([(TJFLAG_NOREALLOC, info_size (out_info env self b))]
              = [(TJFLAG_NOREALLOC, 0)]).
      rewrite out_info_size. unfold mem. by rewrite Halloc.
    + by rewrite (run_chain_through env self inbuf h b).
    + by rewrite (run_chain_through env self inbuf h b).
Qed.

Lemma allocation_failure_is_not_checked_witness :
  let r := run_chain Inputs.env_exhausted Inputs.rot90 Inputs.inbuf Inputs.image_store in
  (env_map_ok Inputs.env_exhausted (outbuf_of Inputs.image_store) GST_MAP_WRITE = false →
     r.1 = GST_FLOW_ERROR
     ∧ last (posted (trace r.2)) = Some "Unable to map memory"
     ∧ bufs r.2 !! outbuf_of Inputs.image_store = None
     ∧ pushed (trace r.2) = [])
  ∧ (env_map_ok Inputs.env_exhausted (outbuf_of Inputs.image_store) GST_MAP_WRITE = true →
     transform_regions (trace r.2) = [(TJFLAG_NOREALLOC, 0)]
     ∧ bufs r.2 = drop_ref Inputs.inbuf Inputs.image_store
     ∧ r.1 = push_result Inputs.env_exhausted Inputs.rot90 Inputs.image).
Proof.
  apply (allocation_failure_is_not_checked Inputs.env_exhausted Inputs.rot90 Inputs.inbuf
           Inputs.image_store Inputs.image);
    vm_compute; reflexivity.
Defined.

(** The run on a sound image with the allocator exhausted: the header is
    read, no memory is had, and the only error posted is that of the
    transform; an empty buffer is pushed and GST_FLOW_OK returned. *)
Example exhausted_allocator_run :
  let r := run_chain Inputs.env_exhausted Inputs.rot90 Inputs.inbuf Inputs.image_store in
  hdr_ret (hdr Inputs.env_exhausted Inputs.rot90 Inputs.image) = 0
  ∧ mem Inputs.env_exhausted Inputs.rot90 Inputs.image = None
  ∧ posted (trace r.2) = ["tjTransform failed"]
  ∧ gst_buffer_get_size <$> pushed (trace r.2) = [0]
  ∧ r.1 = GST_FLOW_OK.
Proof. vm_compute. done. Qed.

(** * Further properties of the element *)

(** ** Every way through the chain function *)

Lemma run_chain_cases (env : Env) (self : Gstjpegtran) (inbuf : GstBufferP)
    (h : gmap GstBufferP GstBuffer) :
  (h !! inbuf = None
   ∧ run_chain env self inbuf h =
       (GST_FLOW_ERROR,
        {| bufs := h;
           trace := [EvElementError "Unable to map memory"; EvUnref inbuf] |}))
  ∨ (∃ b, h !! inbuf = Some b
       ∧ env_map_ok env inbuf GST_MAP_READ = false
       ∧ run_chain env self inbuf h =
           (GST_FLOW_ERROR,
            {| bufs := drop_ref inbuf h;
               trace := [EvMap inbuf GST_MAP_READ false;
                         EvElementError "Unable to map memory"; EvUnref inbuf] |}))
  ∨ (∃ b, h !! inbuf = Some b
       ∧ env_map_ok env inbuf GST_MAP_READ = true
       ∧ env_map_ok env (outbuf_of h) GST_MAP_WRITE = false
       ∧ run_chain env self inbuf h =
           (GST_FLOW_ERROR,
            {| bufs := <[inbuf := set_mapcount (S (mapcount b)) b]> h;
               trace := trace_to_output_map env self inbuf h b false
                        ++ [EvElementError "Unable to map memory";
                            EvUnref (outbuf_of h)] |}))
  ∨ (∃ b, h !! inbuf = Some b
       ∧ env_map_ok env inbuf GST_MAP_READ = true
       ∧ env_map_ok env (outbuf_of h) GST_MAP_WRITE = true
       ∧ run_chain env self inbuf h =
           (push_result env self b,
            {| bufs := drop_ref inbuf h;
               trace := trace_to_output_map env self inbuf h b true
                        ++ trace_transform env self inbuf h b
                        ++ trace_forward env self inbuf h b |})).
Proof.
  destruct (h !! inbuf) as [b|] eqn:Hlive.
  2: { left. split; [done|]. by apply run_chain_dead. }
  right.
  destruct (env_map_ok env inbuf GST_MAP_READ) eqn:Hread.
  2: { left. exists b. repeat split.
       by apply (run_chain_input_unmappable env self inbuf h b). }
  right.
  destruct (env_map_ok env (outbuf_of h) GST_MAP_WRITE) eqn:Hwrite.
  - right. exists b. repeat split. by apply run_chain_through.
  - left. exists b. repeat split. by apply run_chain_output_unmappable.
Qed.

Lemma delete_drop_ref (p : GstBufferP) (m : gmap GstBufferP GstBuffer) :
  delete p (drop_ref p m) = delete p m.
Proof.
  unfold drop_ref. destruct (m !! p) as [buf|]; [|done].
  destruct (refcount buf <=? 1)%nat.
  - apply delete_delete_eq.
  - apply delete_insert_eq.
Qed.

(** X1: on every way through the chain function at most one buffer is
    pushed.  If none is, the function returns GST_FLOW_ERROR; if one is, it
    went out on the source pad, tjTransform had been called exactly once, and
    the function returns the peer's answer for that buffer. *)
Theorem one_push_or_error (env : Env) (self : Gstjpegtran) (inbuf : GstBufferP)
    (h : gmap GstBufferP GstBuffer) :
  let r := run_chain env self inbuf h in
  (pushed (trace r.2) = [] ∧ r.1 = GST_FLOW_ERROR)
  ∨ (∃ t, pushed (trace r.2) = [t]
          ∧ push_pads (trace r.2) = [srcpad self]
          ∧ length (transform_calls (trace r.2)) = 1%nat
          ∧ r.1 = env_push env (srcpad self) t).
Proof.
  intros r. unfold r.
  destruct (run_chain_cases env self inbuf h)
    as [(_ & ->)|[(b & _ & _ & ->)|[(b & _ & _ & _ & ->)|(b & Hlive & Hread & Hwrite & E)]]].
  - by left.
  - by left.
  - left. cbn [fst snd trace]. split; [|done].
    by rewrite pushed_app, pushed_to_output_map.
  - destruct (trimmed env self b) as [t|] eqn:Ht.
    + right. exists t. repeat split.
      * by apply (pushed_forwards env self inbuf h b).
      * rewrite E. cbn [snd trace].
        unfold trace_to_output_map, trace_transform, trace_forward. rewrite Ht.
        by destruct (hdr_ret (hdr env self b) =? 0), ((transformed env self b).1 <? 0).
      * by rewrite (transform_calls_through env self inbuf h b).
      * by rewrite (run_chain_forwards env self inbuf h b Hlive Hread Hwrite t Ht).
    + left. rewrite E. cbn [fst snd trace]. split.
      * by rewrite pushed_through, Ht.
      * unfold push_result. by rewrite Ht.
Qed.

(** X2: whatever happens in an invocation, the buffers other than the input
    buffer are afterwards exactly what they were: none was changed or
    freed, and neither the output buffer nor the trimmed buffer stays
    behind. *)
Theorem other_buffers_untouched (env : Env) (self : Gstjpegtran) (inbuf : GstBufferP)
    (h : gmap GstBufferP GstBuffer) :
  delete inbuf (bufs (run_chain env self inbuf h).2) = delete inbuf h.
Proof.
  destruct (run_chain_cases env self inbuf h)
    as [(_ & ->)|[(b & _ & _ & ->)|[(b & _ & _ & _ & ->)|(b & _ & _ & _ & ->)]]];
    cbn [snd bufs].
  - done.
  - apply delete_drop_ref.
  - apply delete_insert_eq.
  - apply delete_drop_ref.
Qed.

(** X3: the input buffer itself is only read.  Unless the output buffer
    could not be mapped, an input buffer that somebody else holds a
    reference to is afterwards what it was, timestamps, memory and open
    mappings included, with one reference fewer; one held by nobody else is
    gone. *)
Theorem input_buffer_only_unreffed (env : Env) (self : Gstjpegtran) (inbuf : GstBufferP)
    (h : gmap GstBufferP GstBuffer) (b : GstBuffer) :
  h !! inbuf = Some b →
  (env_map_ok env inbuf GST_MAP_READ = true →
   env_map_ok env (outbuf_of h) GST_MAP_WRITE = true) →
  bufs (run_chain env self inbuf h).2 !! inbuf
  = if (refcount b <=? 1)%nat then None
    else Some (set_refcount (Nat.pred (refcount b)) b).
Proof.
  intros Hlive Hmaps.
  assert (bufs (run_chain env self inbuf h).2 = drop_ref inbuf h) as ->.
  { destruct (env_map_ok env inbuf GST_MAP_READ) eqn:Hread.
    - by rewrite (run_chain_through env self inbuf h b) by auto.
    - by rewrite (run_chain_input_unmappable env self inbuf h b). }
  unfold drop_ref. rewrite Hlive.
  destruct (refcount b <=? 1)%nat.
  - apply lookup_delete_eq.
  - apply lookup_insert_eq.
Qed.

Lemma input_buffer_only_unreffed_witness :
  bufs (run_chain Inputs.env Inputs.rot90 6%nat Stream.store).2 !! 6%nat
  = if (refcount Stream.second <=? 1)%nat then None
    else Some (set_refcount (Nat.pred (refcount Stream.second)) Stream.second).
Proof.
  apply (input_buffer_only_unreffed Inputs.env Inputs.rot90 6%nat Stream.store
           Stream.second).
  - vm_compute. reflexivity.
  - intros _. vm_compute. reflexivity.
Defined.

(** ** The two mapping failures *)

(** X4: when the input buffer cannot be mapped, the chain function returns
    GST_FLOW_ERROR having posted "Unable to map memory" and nothing else; it
    has called neither the codec nor the allocator and has pushed nothing. *)
Theorem input_map_failure_is_quiet (env : Env) (self : Gstjpegtran) (inbuf : GstBufferP)
    (h : gmap GstBufferP GstBuffer) (b : GstBuffer) :
  h !! inbuf = Some b →
  env_map_ok env inbuf GST_MAP_READ = false →
  let r := run_chain env self inbuf h in
  r.1 = GST_FLOW_ERROR
  ∧ posted (trace r.2) = ["Unable to map memory"]
  ∧ header_calls (trace r.2) = []
  ∧ alloc_requests (trace r.2) = []
  ∧ transform_calls (trace r.2) = []
  ∧ pushed (trace r.2) = [].
Proof.
  intros Hlive Hread r. unfold r.
  by rewrite (run_chain_input_unmappable env self inbuf h b).
Qed.

Lemma input_map_failure_is_quiet_witness :
  let r := run_chain Stream.env_nomap Inputs.rot90 Inputs.inbuf Inputs.image_store in
  r.1 = GST_FLOW_ERROR
  ∧ posted (trace r.2) = ["Unable to map memory"]
  ∧ header_calls (trace r.2) = []
  ∧ alloc_requests (trace r.2) = []
  ∧ transform_calls (trace r.2) = []
  ∧ pushed (trace r.2) = [].
Proof.
  apply (input_map_failure_is_quiet Stream.env_nomap Inputs.rot90 Inputs.inbuf
           Inputs.image_store Inputs.image).
  - vm_compute. reflexivity.
  - vm_compute. reflexivity.
Defined.

(** X5: when the output buffer cannot be mapped, whatever the allocator
    returned, the chain function returns GST_FLOW_ERROR: the header has been
    probed and the allocator asked once, tjTransform is never called,
    nothing is pushed, "Unable to map memory" is the last error posted, and
    the output buffer has been freed. *)
Theorem output_map_failure_stops (env : Env) (self : Gstjpegtran) (inbuf : GstBufferP)
    (h : gmap GstBufferP GstBuffer) (b : GstBuffer) :
  h !! inbuf = Some b →
  env_map_ok env inbuf GST_MAP_READ = true →
  env_map_ok env (outbuf_of h) GST_MAP_WRITE = false →
  let r := run_chain env self inbuf h in
  r.1 = GST_FLOW_ERROR
  ∧ length (header_calls (trace r.2)) = 1%nat
  ∧ alloc_requests (trace r.2) = [capacity env self b]
  ∧ transform_calls (trace r.2) = []
  ∧ pushed (trace r.2) = []
  ∧ last (posted (trace r.2)) = Some "Unable to map memory"
  ∧ bufs r.2 !! outbuf_of h = None.
Proof.
  intros Hlive Hread Hwrite r. unfold r.
  rewrite (run_chain_output_unmappable env self inbuf h b) by done.
  cbn [fst snd bufs trace]. unfold trace_to_output_map.
  repeat split; try by destruct (hdr_ret (hdr env self b) =? 0).
  rewrite lookup_insert_ne by (symmetry; by apply (outbuf_not_inbuf inbuf h b)).
  apply outbuf_fresh.
Qed.

Lemma output_map_failure_stops_witness :
  let r := run_chain Inputs.env_nomap Inputs.rot90 Inputs.inbuf Inputs.image_store in
  r.1 = GST_FLOW_ERROR
  ∧ length (header_calls (trace r.2)) = 1%nat
  ∧ alloc_requests (trace r.2) = [capacity Inputs.env_nomap Inputs.rot90 Inputs.image]
  ∧ transform_calls (trace r.2) = []
  ∧ pushed (trace r.2) = []
  ∧ last (posted (trace r.2)) = Some "Unable to map memory"
  ∧ bufs r.2 !! outbuf_of Inputs.image_store = None.
Proof.
  apply (output_map_failure_stops Inputs.env_nomap Inputs.rot90 Inputs.inbuf
           Inputs.image_store Inputs.image).
  - vm_compute. reflexivity.
  - vm_compute. reflexivity.
  - vm_compute. reflexivity.
Defined.

(** ** What the codec is given, and what is reported *)

(** X6: with both buffers mapped, the header probe and the transform are
    handed the same input bytes - the mapped input buffer, whole - the probe
    on the decompression handle and the transform on the transform handle;
    the transform is asked for one output, at the start of the output
    buffer's mapping. *)
Theorem codec_calls_share_input (env : Env) (self : Gstjpegtran) (inbuf : GstBufferP)
    (h : gmap GstBufferP GstBuffer) (b : GstBuffer) :
  h !! inbuf = Some b →
  env_map_ok env inbuf GST_MAP_READ = true →
  env_map_ok env (outbuf_of h) GST_MAP_WRITE = true →
  let tr := trace (run_chain env self inbuf h).2 in
  let jpegBuf := info_data (map_info_of b) in
  let jpegSize := gst_buffer_get_size b in
  header_calls tr = [(tjHandle self, jpegBuf, jpegSize)]
  ∧ transform_inputs tr
    = [(tjInstance self, jpegBuf, jpegSize, 1, info_data (out_info env self b))].
Proof.
  intros Hlive Hread Hwrite tr jpegBuf jpegSize. unfold tr.
  rewrite (run_chain_through env self inbuf h b) by done.
  cbn [snd trace]. unfold trace_to_output_map, trace_transform, trace_forward.
  by destruct (hdr_ret (hdr env self b) =? 0), ((transformed env self b).1 <? 0),
    (trimmed env self b).
Qed.

Lemma codec_calls_share_input_witness :
  let tr := trace (run_chain Inputs.env Inputs.rot90 Inputs.inbuf Inputs.image_store).2 in
  let jpegBuf := info_data (map_info_of Inputs.image) in
  let jpegSize := gst_buffer_get_size Inputs.image in
  header_calls tr = [(tjHandle Inputs.rot90, jpegBuf, jpegSize)]
  ∧ transform_inputs tr
    = [(tjInstance Inputs.rot90, jpegBuf, jpegSize, 1,
        info_data (out_info Inputs.env Inputs.rot90 Inputs.image))].
Proof.
  apply (codec_calls_share_input Inputs.env Inputs.rot90 Inputs.inbuf
           Inputs.image_store Inputs.image);
    vm_compute; reflexivity.
Defined.

(** X7: with both buffers mapped, an error is posted for a failed header
    probe and for a failed transform, once each and in that order, and for
    nothing else: an invocation in which both succeed posts no error. *)
Theorem errors_posted_once (env : Env) (self : Gstjpegtran) (inbuf : GstBufferP)
    (h : gmap GstBufferP GstBuffer) (b : GstBuffer) :
  h !! inbuf = Some b →
  env_map_ok env inbuf GST_MAP_READ = true →
  env_map_ok env (outbuf_of h) GST_MAP_WRITE = true →
  let errors := posted (trace (run_chain env self inbuf h).2) in
  (errors = [] ↔ hdr_ret (hdr env self b) = 0 ∧ 0 ≤ (transformed env self b).1)
  ∧ ("cannot decompress header" ∈ errors ↔ hdr_ret (hdr env self b) ≠ 0)
  ∧ ("tjTransform failed" ∈ errors ↔ (transformed env self b).1 < 0)
  ∧ NoDup errors
  ∧ "Unable to map memory" ∉ errors.
Proof.
  intros Hlive Hread Hwrite errors. unfold errors.
  rewrite (posted_through env self inbuf h b) by done.
  destruct (Z.eqb_spec (hdr_ret (hdr env self b)) 0) as [E|E],
    (Z.ltb_spec (transformed env self b).1 0) as [L|L]; cbn [app].
  all: split_and!;
    try (split; intros; try discriminate; try lia; try done);
    try (apply NoDup_nil_2);
    try (repeat (apply NoDup_cons_2 || apply NoDup_nil_2);
         rewrite ?elem_of_cons, ?elem_of_nil; by intuition discriminate).
  all: rewrite ?elem_of_cons, ?elem_of_nil in *;
    try (intuition (first [discriminate | lia | done])).
Qed.

Lemma errors_posted_once_witness :
  let errors := posted (trace (run_chain Inputs.env Inputs.rot90 Inputs.inbuf
                                 Inputs.torso_store).2) in
  (errors = [] ↔ hdr_ret (hdr Inputs.env Inputs.rot90 Inputs.torso) = 0
                 ∧ 0 ≤ (transformed Inputs.env Inputs.rot90 Inputs.torso).1)
  ∧ ("cannot decompress header" ∈ errors
     ↔ hdr_ret (hdr Inputs.env Inputs.rot90 Inputs.torso) ≠ 0)
  ∧ ("tjTransform failed" ∈ errors
     ↔ (transformed Inputs.env Inputs.rot90 Inputs.torso).1 < 0)
  ∧ NoDup errors
  ∧ "Unable to map memory" ∉ errors.
Proof.
  apply (errors_posted_once Inputs.env Inputs.rot90 Inputs.inbuf
           Inputs.torso_store Inputs.torso);
    vm_compute; reflexivity.
Defined.

(** ** The trim at its bounds *)

Lemma trimmed_overrun (env : Env) (self : Gstjpegtran) (b : GstBuffer) :
  info_size (out_info env self b) < dstSizes0 env self b →
  dstSizes0 env self b ≠ G_MAXSIZE →
  trimmed env self b = None.
Proof.
  intros Hover Hmax. pose proof (out_info_size_le env self b) as Ho.
  unfold trimmed, gst_buffer_copy_into.
  change (gst_buffer_get_size (out_buffer env self b))
    with (info_size (out_info env self b)).
  destruct (Z.ltb_spec (info_size (out_info env self b)) 0); [done|].
  destruct (Z.eqb_spec (dstSizes0 env self b) G_MAXSIZE); [done|].
  destruct (Z.ltb_spec (info_size (out_info env self b)) (0 + dstSizes0 env self b));
    [done | lia].
Qed.

(** Asked for (gsize) -1 bytes, the trim takes the buffer to its end. *)
Lemma trimmed_to_the_end (env : Env) (self : Gstjpegtran) (b : GstBuffer) :
  dstSizes0 env self b = G_MAXSIZE →
  ∃ t, trimmed env self b = Some t
       ∧ gst_buffer_get_size t = info_size (out_info env self b).
Proof.
  intros Hmax. pose proof (out_info_size_le env self b) as Ho.
  pose proof (out_buffer_memory env self b) as Hm.
  unfold trimmed, gst_buffer_copy_into.
  change (gst_buffer_get_size (out_buffer env self b))
    with (info_size (out_info env self b)).
  destruct (Z.ltb_spec (info_size (out_info env self b)) 0); [lia|].
  rewrite Hmax, Z.eqb_refl.
  destruct (Z.ltb_spec (info_size (out_info env self b))
              (0 + (info_size (out_info env self b) - 0))); [lia|].
  eexists. split; [reflexivity|].
  assert (has_flag trim_copy_flags GST_BUFFER_COPY_MEMORY = true) as -> by reflexivity.
  unfold gst_buffer_get_size. cbn [memory].
  rewrite copy_memory_size; [lia | done | lia | lia |].
  change (gst_buffer_get_size_mem (memory (out_buffer env self b)))
    with (info_size (out_info env self b)). lia.
Qed.

(** X8: when the codec reports in dstSizes[0] more bytes than the output
    buffer holds, the trim yields no buffer and the chain function pushes
    none and returns GST_FLOW_ERROR - unless the size reported is (gsize) -1,
    which the trim reads as "to the end": then the whole output buffer is
    pushed and the peer's answer returned.  Either way the input buffer has
    been released like after a push. *)
Theorem overrun_trim_outcome (env : Env) (self : Gstjpegtran) (inbuf : GstBufferP)
    (h : gmap GstBufferP GstBuffer) (b : GstBuffer) :
  h !! inbuf = Some b →
  env_map_ok env inbuf GST_MAP_READ = true →
  env_map_ok env (outbuf_of h) GST_MAP_WRITE = true →
  info_size (out_info env self b) < dstSizes0 env self b →
  let r := run_chain env self inbuf h in
  (if dstSizes0 env self b =? G_MAXSIZE
   then ∃ t, pushed (trace r.2) = [t]
             ∧ gst_buffer_get_size t = info_size (out_info env self b)
             ∧ r.1 = env_push env (srcpad self) t
   else pushed (trace r.2) = [] ∧ r.1 = GST_FLOW_ERROR)
  ∧ bufs r.2 = drop_ref inbuf h
  ∧ unrefs inbuf (trace r.2) = 1%nat.
Proof.
  intros Hlive Hread Hwrite Hover r. unfold r.
  pose proof (outbuf_not_inbuf inbuf h b Hlive) as Hne.
  rewrite (run_chain_through env self inbuf h b) by done.
  cbn [fst snd bufs trace]. split_and!.
  - rewrite pushed_through. unfold push_result.
    destruct (Z.eqb_spec (dstSizes0 env self b) G_MAXSIZE) as [Hmax|Hmax].
    + destruct (trimmed_to_the_end env self b Hmax) as (t & Ht & Hsize).
      exists t. by rewrite Ht.
    + by rewrite (trimmed_overrun env self b Hover Hmax).
  - done.
  - unfold trace_to_output_map, trace_transform, trace_forward, unrefs.
    destruct (hdr_ret (hdr env self b) =? 0), ((transformed env self b).1 <? 0),
      (trimmed env self b); cbn;
      repeat (case_decide; try congruence; cbn); done.
Qed.

Lemma overrun_trim_outcome_witness :
  (let r := run_chain Stream.env_overrun Inputs.rot90 Inputs.inbuf Inputs.image_store in
   (pushed (trace r.2) = [] ∧ r.1 = GST_FLOW_ERROR)
   ∧ bufs r.2 = drop_ref Inputs.inbuf Inputs.image_store
   ∧ unrefs Inputs.inbuf (trace r.2) = 1%nat)
  ∧ (let r := run_chain Stream.env_minus_one Inputs.rot90 Inputs.inbuf Inputs.image_store in
     (∃ t, pushed (trace r.2) = [t]
           ∧ gst_buffer_get_size t
             = info_size (out_info Stream.env_minus_one Inputs.rot90 Inputs.image)
           ∧ r.1 = env_push Stream.env_minus_one (srcpad Inputs.rot90) t)
     ∧ bufs r.2 = drop_ref Inputs.inbuf Inputs.image_store
     ∧ unrefs Inputs.inbuf (trace r.2) = 1%nat).
Proof.
  split.
  - apply (overrun_trim_outcome Stream.env_overrun Inputs.rot90 Inputs.inbuf
             Inputs.image_store Inputs.image); vm_compute; reflexivity.
  - apply (overrun_trim_outcome Stream.env_minus_one Inputs.rot90 Inputs.inbuf
             Inputs.image_store Inputs.image); vm_compute; reflexivity.
Defined.

(** X9: the buffer pushed is a view of the allocated block, not a copy: when
    the allocator returned the block at [a] and the codec wrote into it, the
    pushed buffer's memory is the first dstSizes[0] bytes at [a]; when the
    codec wrote nothing, an empty buffer is pushed all the same. *)
Theorem pushed_buffer_views_the_block (env : Env) (self : Gstjpegtran) (inbuf : GstBufferP)
    (h : gmap GstBufferP GstBuffer) (b : GstBuffer) (a : Z) :
  h !! inbuf = Some b →
  env_map_ok env inbuf GST_MAP_READ = true →
  env_map_ok env (outbuf_of h) GST_MAP_WRITE = true →
  env_alloc env (capacity env self b) = Some a →
  within_region env self b →
  ∃ t, pushed (trace (run_chain env self inbuf h).2) = [t]
       ∧ memory t = if 0 <? dstSizes0 env self b
                    then [{| mem_addr := a; mem_size := dstSizes0 env self b |}]
                    else [].
Proof.
  intros Hlive Hread Hwrite Halloc Hfit.
  destruct (trimmed_fits env self b Hfit) as (t & Ht & _).
  exists t. split; [by apply (pushed_forwards env self inbuf h b)|].
  pose proof (dstSizes0_range env self b) as Hd.
  pose proof (capacity_range env self b) as Hc.
  unfold within_region in Hfit. rewrite out_info_size in Hfit.
  unfold trimmed, gst_buffer_copy_into in Ht.
  unfold out_buffer, mem in Ht, Hfit. rewrite Halloc in Ht, Hfit.
  cbn [fmap option_fmap option_map gst_buffer_get_size memory set_memory
       gst_buffer_get_size_mem mem_size] in Ht.
  cbn [fmap option_fmap option_map] in Hfit.
  rewrite !Z.add_0_r in Ht.
  destruct (Z.ltb_spec (capacity env self b) 0); [lia|].
  set (sz := if dstSizes0 env self b =? G_MAXSIZE
             then capacity env self b - 0 else dstSizes0 env self b) in Ht.
  assert (sz = dstSizes0 env self b) as Hsz.
  { unfold sz. destruct (Z.eqb_spec (dstSizes0 env self b) G_MAXSIZE); lia. }
  destruct (Z.ltb_spec (capacity env self b) (0 + sz)); [lia|].
  injection Ht as <-. cbn [memory].
  rewrite Hsz.
  destruct (Z.ltb_spec 0 (dstSizes0 env self b)) as [Hpos|Hzero].
  - destruct (Z.leb_spec (dstSizes0 env self b) 0); [lia|].
    destruct (Z.leb_spec (capacity env self b) 0); [lia|].
    f_equal. f_equal; lia.
  - by destruct (Z.leb_spec (dstSizes0 env self b) 0); [|lia].
Qed.

Lemma pushed_buffer_views_the_block_witness :
  ∃ t, pushed (trace (run_chain Inputs.env Inputs.rot90 Inputs.inbuf
                        Inputs.image_store).2) = [t]
       ∧ memory t = if 0 <? dstSizes0 Inputs.env Inputs.rot90 Inputs.image
                    then [{| mem_addr := 4096;
                             mem_size := dstSizes0 Inputs.env Inputs.rot90 Inputs.image |}]
                    else [].
Proof.
  apply (pushed_buffer_views_the_block Inputs.env Inputs.rot90 Inputs.inbuf
           Inputs.image_store Inputs.image 4096).
  - vm_compute. reflexivity.
  - vm_compute. reflexivity.
  - vm_compute. reflexivity.
  - vm_compute. reflexivity.
  - unfold within_region. vm_compute. discriminate.
Defined.

(** ** One buffer after the other *)

Lemma run_stream_step (env : Env) (self : Gstjpegtran) (p : GstBufferP)
    (ps : list GstBufferP) (h : gmap GstBufferP GstBuffer) (b t : GstBuffer) :
  h !! p = Some b →
  env_map_ok env p GST_MAP_READ = true →
  env_map_ok env (outbuf_of h) GST_MAP_WRITE = true →
  trimmed env self b = Some t →
  (run_stream env self (p :: ps) h).1.1
  = env_push env (srcpad self) t :: (run_stream env self ps (drop_ref p h)).1.1
  ∧ (run_stream env self (p :: ps) h).1.2 = (run_stream env self ps (drop_ref p h)).1.2
  ∧ pushed (run_stream env self (p :: ps) h).2
    = t :: pushed (run_stream env self ps (drop_ref p h)).2.
Proof.
  intros Hlive Hread Hwrite Ht. cbn [run_stream fst snd].
  rewrite pushed_app, (pushed_forwards env self p h b Hlive Hread Hwrite t Ht).
  by rewrite (run_chain_forwards env self p h b Hlive Hread Hwrite t Ht).
Qed.

Lemma live_after_drop (p : GstBufferP) (h : gmap GstBufferP GstBuffer)
    (ps : list GstBufferP) (bs : list GstBuffer) :
  p ∉ ps →
  Forall2 (λ q b, h !! q = Some b) ps bs →
  Forall2 (λ q b, drop_ref p h !! q = Some b) ps bs.
Proof.
  intros Hn Hlive. induction Hlive as [|q b ps bs Hq Hlive IH]; constructor.
  - rewrite drop_ref_lookup_ne; [done|]. intros ->. apply Hn. by left.
  - apply IH. intros Hin. apply Hn. by right.
Qed.

(** X10: buffers are dealt with in the order they arrive.  For a series of
    different live buffers, with every mapping succeeding and the codec
    keeping to its output region, a series of invocations pushes one buffer
    per input, in input order, each of the size the codec reported for its
    input, and returns the peer's answer to each. *)
Theorem stream_keeps_order (env : Env) (self : Gstjpegtran) (inbufs : list GstBufferP)
    (bs : list GstBuffer) (h : gmap GstBufferP GstBuffer) :
  NoDup inbufs →
  Forall2 (λ p b, h !! p = Some b) inbufs bs →
  (∀ p fl, env_map_ok env p fl = true) →
  Forall (within_region env self) bs →
  let r := run_stream env self inbufs h in
  gst_buffer_get_size <$> pushed r.2 = dstSizes0 env self <$> bs
  ∧ r.1.1 = env_push env (srcpad self) <$> pushed r.2.
Proof.
  intros Hnd Hlive Hmaps Hfit. revert h bs Hlive Hfit.
  induction Hnd as [|p ps Hnotin Hnd IH]; intros h bs Hlive Hfit r.
  - apply Forall2_nil_inv_l in Hlive as ->. done.
  - apply Forall2_cons_inv_l in Hlive as (b & bs' & Hp & Hps & ->).
    apply Forall_cons in Hfit as [Hb Hbs'].
    destruct (trimmed_fits env self b Hb) as (t & Ht & Hsize & _).
    destruct (run_stream_step env self p ps h b t Hp (Hmaps _ _) (Hmaps _ _) Ht)
      as (Hret & _ & Hpushed).
    pose proof (live_after_drop p h ps bs' Hnotin Hps) as Hlive'.
    destruct (IH (drop_ref p h) bs' Hlive' Hbs') as [IHsize IHret].
    unfold r. rewrite Hret, Hpushed. cbn [fmap list_fmap].
    change (list_fmap _ _ ?f ?l) with (f <$> l).
    by rewrite Hsize, IHsize, IHret.
Qed.

Lemma stream_keeps_order_witness :
  let r := run_stream Inputs.env Inputs.rot90 [5%nat; 6%nat] Stream.store in
  gst_buffer_get_size <$> pushed r.2
  = dstSizes0 Inputs.env Inputs.rot90 <$> [Stream.first; Stream.second]
  ∧ r.1.1 = env_push Inputs.env (srcpad Inputs.rot90) <$> pushed r.2.
Proof.
  apply (stream_keeps_order Inputs.env Inputs.rot90 [5%nat; 6%nat]
           [Stream.first; Stream.second] Stream.store).
  - apply NoDup_cons_2; [|apply NoDup_singleton].
    rewrite list_elem_of_singleton. discriminate.
  - repeat constructor; vm_compute; reflexivity.
  - intros p fl. unfold Inputs.env, Sim.env. cbn.
    by destruct (fl =? GST_MAP_WRITE).
  - repeat constructor; unfold within_region; vm_compute; discriminate.
Defined.

(** ** Properties over time *)

Lemma set_property_keeps_rest (f : Gstjpegtran) (id : Z) (v : GValue) :
  sinkpad (gst_jpegtran_set_property f id v) = sinkpad f
  ∧ srcpad (gst_jpegtran_set_property f id v) = srcpad f
  ∧ tjHandle (gst_jpegtran_set_property f id v) = tjHandle f
  ∧ tjInstance (gst_jpegtran_set_property f id v) = tjInstance f.
Proof. unfold gst_jpegtran_set_property. by destruct (id =? PROP_XOP). Qed.

Lemma set_properties_cons (w : Z * GValue) (writes : list (Z * GValue)) (f : Gstjpegtran) :
  set_properties (w :: writes) f
  = set_properties writes (gst_jpegtran_set_property f w.1 w.2).
Proof. reflexivity. Qed.

Lemma set_properties_app (ws1 ws2 : list (Z * GValue)) (f : Gstjpegtran) :
  set_properties (ws1 ++ ws2) f = set_properties ws2 (set_properties ws1 f).
Proof. apply foldl_app. Qed.

Lemma set_properties_keep_rest (writes : list (Z * GValue)) (f : Gstjpegtran) :
  sinkpad (set_properties writes f) = sinkpad f
  ∧ srcpad (set_properties writes f) = srcpad f
  ∧ tjHandle (set_properties writes f) = tjHandle f
  ∧ tjInstance (set_properties writes f) = tjInstance f.
Proof.
  revert f. induction writes as [|w writes IH]; intros f; [done|].
  rewrite set_properties_cons.
  destruct (IH (gst_jpegtran_set_property f w.1 w.2)) as (-> & -> & -> & ->).
  apply set_property_keeps_rest.
Qed.

Lemma set_properties_unknown (writes : list (Z * GValue)) (f : Gstjpegtran) :
  Forall (λ w, w.1 ≠ PROP_XOP) writes → set_properties writes f = f.
Proof.
  induction 1 as [|w writes Hw _ IH]; [done|].
  rewrite set_properties_cons. unfold gst_jpegtran_set_property.
  destruct (Z.eqb_spec w.1 PROP_XOP); [done | exact IH].
Qed.

(** X11: property ids other than that of xop do nothing: a series of writes
    to such ids leaves the element as it was, and reading such an id leaves
    the value that was passed in untouched. *)
Theorem unknown_property_ids_do_nothing
    (writes : list (Z * GValue)) (f : Gstjpegtran) (id : Z) (value : GValue) :
  Forall (λ w, w.1 ≠ PROP_XOP) writes →
  id ≠ PROP_XOP →
  set_properties writes f = f
  ∧ gst_jpegtran_get_property f id value = value.
Proof.
  intros Hwrites Hid. split; [by apply set_properties_unknown|].
  unfold gst_jpegtran_get_property. by destruct (Z.eqb_spec id PROP_XOP).
Qed.

Lemma unknown_property_ids_do_nothing_witness :
  set_properties [(PROP_0, 5); (7, 3)] Inputs.rot90 = Inputs.rot90
  ∧ gst_jpegtran_get_property Inputs.rot90 PROP_0 42 = 42.
Proof.
  apply (unknown_property_ids_do_nothing [(PROP_0, 5); (7, 3)] Inputs.rot90 PROP_0 42).
  - repeat constructor; vm_compute; discriminate.
  - vm_compute. discriminate.
Defined.

(** X12: the last write to xop wins.  After any series of property writes,
    reading xop gives the value of the last write to xop, whether or not it
    is one of the eight operations, and the pads and both codec handles are
    those the element had before. *)
Theorem last_xop_write_wins
    (before after : list (Z * GValue)) (v value : GValue) (f : Gstjpegtran) :
  Forall (λ w, w.1 ≠ PROP_XOP) after →
  let f' := set_properties (before ++ (PROP_XOP, v) :: after) f in
  gst_jpegtran_get_property f' PROP_XOP value = v
  ∧ sinkpad f' = sinkpad f ∧ srcpad f' = srcpad f
  ∧ tjHandle f' = tjHandle f ∧ tjInstance f' = tjInstance f.
Proof.
  intros Hafter f'. split; [|apply set_properties_keep_rest].
  unfold f'. rewrite set_properties_app, set_properties_cons.
  by rewrite set_properties_unknown.
Qed.

Lemma last_xop_write_wins_witness :
  let f' := set_properties ([(PROP_XOP, 6); (PROP_0, 1)] ++ (PROP_XOP, 99) :: [(7, 3)])
              Inputs.none in
  gst_jpegtran_get_property f' PROP_XOP 0 = 99
  ∧ sinkpad f' = sinkpad Inputs.none ∧ srcpad f' = srcpad Inputs.none
  ∧ tjHandle f' = tjHandle Inputs.none ∧ tjInstance f' = tjInstance Inputs.none.
Proof.
  apply (last_xop_write_wins [(PROP_XOP, 6); (PROP_0, 1)] [(7, 3)] 99 0 Inputs.none).
  repeat constructor; vm_compute; discriminate.
Defined.

(** ** From init to finalize *)

Lemma gst_jpegtran_init_run (env : Env) (sink src : GstPad) (w : World) :
  gst_jpegtran_init env sink src w
  = ({| sinkpad := sink; srcpad := src; xop := DEFAULT_XOP;
        tjHandle := env_init_decompress env;
        tjInstance := env_init_transform env |},
     {| bufs := bufs w;
        trace := (trace w
                  ++ (if (env_init_decompress env =? 0)%nat
                      then [EvElementError "cannot init decompressor"] else []))
                 ++ (if (env_init_transform env =? 0)%nat
                     then [EvElementError "cannot init transform"] else []) |}).
Proof.
  unfold gst_jpegtran_init.
  step error_if_run. step error_if_run.
  reflexivity.
Qed.


(** X14: gst_jpegtran_finalize destroys the two handles gst_jpegtran_init
    obtained, the decompression handle first, a NULL one included, whatever
    properties were written in between. *)
Theorem finalize_destroys_init_handles
    (env : Env) (sink src : GstPad) (w : World) (writes : list (Z * GValue)) :
  gst_jpegtran_finalize (set_properties writes (gst_jpegtran_init env sink src w).1)
  = [env_init_decompress env; env_init_transform env].
Proof.
  unfold gst_jpegtran_finalize.
  destruct (set_properties_keep_rest writes (gst_jpegtran_init env sink src w).1)
    as (_ & _ & -> & ->).
  by rewrite gst_jpegtran_init_run.
Qed.

(** X15: a new element, run on a buffer, probes the header on the handle
    tjInitDecompress returned and transforms on the handle tjInitTransform
    returned - also when that handle is NULL - with the operation none, and
    every buffer it pushes goes out on the source pad it was made with. *)
Theorem new_element_runs_with_init_handles
    (env : Env) (sink src : GstPad) (w : World) (inbuf : GstBufferP)
    (h : gmap GstBufferP GstBuffer) (b : GstBuffer) :
  h !! inbuf = Some b →
  env_map_ok env inbuf GST_MAP_READ = true →
  env_map_ok env (outbuf_of h) GST_MAP_WRITE = true →
  let self := (gst_jpegtran_init env sink src w).1 in
  let tr := trace (run_chain env self inbuf h).2 in
  (header_calls tr).*1.*1 = [env_init_decompress env]
  ∧ (transform_inputs tr).*1.*1.*1.*1 = [env_init_transform env]
  ∧ transform_ops tr = [xop_value TJXOP_NONE]
  ∧ push_pads tr = (λ _, src) <$> pushed tr.
Proof.
  intros Hlive Hread Hwrite self tr.
  assert (self = {| sinkpad := sink; srcpad := src; xop := DEFAULT_XOP;
                    tjHandle := env_init_decompress env;
                    tjInstance := env_init_transform env |}) as Hself.
  { unfold self. by rewrite gst_jpegtran_init_run. }
  unfold tr. rewrite (run_chain_through env self inbuf h b) by done.
  cbn [snd trace]. split_and!.
  - unfold trace_to_output_map, trace_transform, trace_forward. rewrite Hself.
    by destruct (hdr_ret _ =? 0), (_ <? 0), (trimmed _ _ _).
  - unfold trace_to_output_map, trace_transform, trace_forward. rewrite Hself.
    by destruct (hdr_ret _ =? 0), (_ <? 0), (trimmed _ _ _).
  - unfold trace_to_output_map, trace_transform, trace_forward, transform_ops.
    rewrite Hself.
    by destruct (hdr_ret _ =? 0), (_ <? 0), (trimmed _ _ _).
  - unfold trace_to_output_map, trace_transform, trace_forward.
    destruct (hdr_ret _ =? 0), (_ <? 0), (trimmed _ _ _); cbn; by rewrite ?Hself.
Qed.

Lemma new_element_runs_with_init_handles_witness :
  let self := (gst_jpegtran_init Stream.env_nohandle 10%nat 11%nat
                 {| bufs := ∅; trace := [] |}).1 in
  let tr := trace (run_chain Stream.env_nohandle self Inputs.inbuf Inputs.image_store).2 in
  ((header_calls tr).*1.*1 = [0%nat]
   ∧ (transform_inputs tr).*1.*1.*1.*1 = [2%nat]
   ∧ transform_ops tr = [xop_value TJXOP_NONE]
   ∧ push_pads tr = (λ _, 11%nat) <$> pushed tr)
  ∧ push_pads tr = [11%nat].
Proof.
  split.
  - apply (new_element_runs_with_init_handles Stream.env_nohandle 10%nat 11%nat
             {| bufs := ∅; trace := [] |} Inputs.inbuf Inputs.image_store Inputs.image);
      vm_compute; reflexivity.
  - vm_compute. reflexivity.
Defined.

(** ** The enumeration type is registered once *)

Section GetType.
Variable g_enum_register_static : string → list (Z * string) → GType.

Lemma xop_get_type_known (st : XopTypeState) :
  jpegtran_xop_type st ≠ 0 →
  gst_jpegtran_xop_get_type g_enum_register_static st = (jpegtran_xop_type st, st).
Proof.
  intros Hknown. unfold gst_jpegtran_xop_get_type.
  by destruct (Z.eqb_spec (jpegtran_xop_type st) 0).
Qed.

Lemma xop_get_type_first (st : XopTypeState) :
  jpegtran_xop_type st = 0 →
  gst_jpegtran_xop_get_type g_enum_register_static st
  = (g_enum_register_static "GstJpegTranXop" xop_types,
     {| jpegtran_xop_type := g_enum_register_static "GstJpegTranXop" xop_types;
        registered := registered st ++ [("GstJpegTranXop", xop_types)] |}).
Proof. intros Hzero. unfold gst_jpegtran_xop_get_type. by rewrite Hzero. Qed.

Lemma xop_get_type_calls_known (n : nat) (st : XopTypeState) :
  jpegtran_xop_type st ≠ 0 →
  xop_get_type_calls g_enum_register_static n st
  = (replicate n (jpegtran_xop_type st), st).
Proof.
  intros Hknown. induction n as [|n IH]; [done|].
  cbn [xop_get_type_calls]. rewrite xop_get_type_known by done.
  cbn [fst snd]. by rewrite IH.
Qed.

Lemma xop_get_type_calls_refused (n : nat) (st : XopTypeState) :
  jpegtran_xop_type st = 0 →
  g_enum_register_static "GstJpegTranXop" xop_types = 0 →
  xop_get_type_calls g_enum_register_static n st
  = (replicate n 0,
     {| jpegtran_xop_type := 0;
        registered := registered st ++ replicate n ("GstJpegTranXop", xop_types) |}).
Proof.
  intros Hzero Hrefused. revert st Hzero.
  induction n as [|n IH]; intros st Hzero.
  - cbn. rewrite app_nil_r. destruct st; cbn in *. by subst.
  - cbn [xop_get_type_calls]. rewrite xop_get_type_first by done.
    rewrite Hrefused. cbn [fst snd].
    rewrite IH by done. cbn [fst snd registered replicate].
    by rewrite <- app_assoc.
Qed.

(** X16: however often gst_jpegtran_xop_get_type is called, every call
    returns the type g_enum_register_static answered with.  When that is a
    type, the table is registered by the first call only, under the name
    GstJpegTranXop; when registration is refused (the answer is 0), every
    call tries again. *)
Theorem xop_type_registered_once (n : nat) :
  let T := g_enum_register_static "GstJpegTranXop" xop_types in
  let r := xop_get_type_calls g_enum_register_static n xop_type_start in
  r.1 = replicate n T
  ∧ registered r.2
    = replicate (if T =? 0 then n else Nat.min n 1) ("GstJpegTranXop", xop_types).
Proof.
  intros T r. unfold r.
  destruct (Z.eqb_spec T 0) as [Hrefused|Hknown].
  - rewrite xop_get_type_calls_refused by done. by rewrite Hrefused.
  - destruct n as [|n]; [done|].
    cbn [xop_get_type_calls]. rewrite xop_get_type_first by done.
    fold T. cbn [fst snd]. rewrite xop_get_type_calls_known by done.
    replace (S n `min` 1)%nat with 1%nat by lia. done.
Qed.
End GetType.

(** X17: the registered table gives each of the eight TurboJPEG operations
    one entry, no value and no nick twice, and the default value of the
    property is the entry with the nick none. *)
Theorem xop_table_is_one_to_one :
  NoDup xop_types.*1
  ∧ NoDup xop_types.*2
  ∧ (∀ v : TJXOP, xop_value v ∈ xop_types.*1)
  ∧ length xop_types = length all_xops
  ∧ (DEFAULT_XOP, "none") ∈ xop_types.
Proof.
  split_and!.
  - rewrite xop_types_values. apply NoDup_fmap_2_strong; [|apply NoDup_ListNoDup].
    + intros [] [] _ _; (done || discriminate).
    + unfold all_xops. repeat constructor; cbn; intuition discriminate.
  - cbn. repeat (apply NoDup_cons_2 || apply NoDup_nil_2);
      rewrite ?elem_of_cons, ?elem_of_nil; by intuition discriminate.
  - intros v. rewrite xop_types_values. apply list_elem_of_fmap_2, all_xops_complete.
  - reflexivity.
  - unfold xop_types. apply list_elem_of_here.
Qed.

(** ** Events pass *)

(** X18: every event that reaches the sink pad is handed to
    gst_pad_event_default exactly once, with the pad and parent it came
    with - a caps event too, after its caps have been read - and the handler
    returns what the default handler returned. *)
Theorem sink_event_passes_everything
    (gst_pad_event_default : GstPad → GstObject → GstEvent → bool)
    (pad : GstPad) (parent : GstObject) (event : GstEvent) :
  let r := gst_jpegtran_sink_event gst_pad_event_default pad parent event in
  r.1 = gst_pad_event_default pad parent event
  ∧ forwarded_events r.2 = [(pad, parent, event)].
Proof.
  intros r. unfold r, gst_jpegtran_sink_event.
  by destruct (event_type event =? GST_EVENT_CAPS).
Qed.
